(** * The command dispatch and execution engine of the interactive shell

    A shallow embedding of [src/command_handler.py] (class [CommandHandler])
    and of the part of the host it runs on: Python's [str] methods, the
    POSIX flavour of [os.path], and a file system without symbolic links
    in which the process may read, search and write every entry.

    Conventions.
    - A Python [str] is a Rocq [string]; each character stands for a code
      point below 256.
    - The content of a file is its bytes, one character for each byte;
      text is what reading in text mode decodes from them.
    - An absolute file-system location is a [list string] of its
      components, innermost first ([["b"; "a"]] is [/a/b], [[]] is [/]).
    - Handlers run in the monad [M]: a function of the [world] that returns
      either a raised exception or a value, with the world as it was left.
    - An exception is an instance of Python's [Exception]; interrupts and
      exits ([KeyboardInterrupt], [SystemExit]), which no handler raises,
      are outside the embedding.
*)

From Stdlib Require Import Ascii String.
From stdpp Require Import gmap strings list fin_maps pretty sorting.

Local Open Scope string_scope.

(** ** Python strings *)

Module Str.

Definition code (c : ascii) : nat := nat_of_ascii c.

(** [str.isspace] on one character (code points below 256). *)
Definition isspace (c : ascii) : bool :=
  let n := code c in
  (((9 <=? n) && (n <=? 13)) || ((28 <=? n) && (n <=? 32))
   || (n =? 133) || (n =? 160))%nat.

Fixpoint lstrip (s : string) : string :=
  match s with
  | EmptyString => EmptyString
  | String c s' => if isspace c then lstrip s' else s
  end.

Fixpoint rstrip (s : string) : string :=
  match s with
  | EmptyString => EmptyString
  | String c s' =>
      match rstrip s' with
      | EmptyString => if isspace c then EmptyString else String c EmptyString
      | r => String c r
      end
  end.

(** [s.strip()] *)
Definition strip (s : string) : string := rstrip (lstrip s).

(** [s.split()]: the maximal runs of non-whitespace characters. *)
Fixpoint split (s : string) : list string :=
  match s with
  | EmptyString => []
  | String c s' =>
      if isspace c then split s'
      else
        match s' with
        | EmptyString => [String c EmptyString]
        | String c' _ =>
            if isspace c' then String c EmptyString :: split s'
            else
              match split s' with
              | w :: ws => String c w :: ws
              | [] => [String c EmptyString]
              end
        end
  end.

(** [str.lower] on one character: A-Z and the Latin-1 capitals. *)
Definition lower_char (c : ascii) : ascii :=
  let n := code c in
  if (((65 <=? n) && (n <=? 90))
      || ((192 <=? n) && (n <=? 222) && negb (n =? 215)))%nat
  then ascii_of_nat (n + 32) else c.

Fixpoint lower (s : string) : string :=
  match s with
  | EmptyString => EmptyString
  | String c s' => String (lower_char c) (lower s')
  end.

(** [sep.join(parts)] *)
Fixpoint join (sep : string) (parts : list string) : string :=
  match parts with
  | [] => ""
  | [p] => p
  | p :: ps => p +:+ sep +:+ join sep ps
  end.

(** [s.startswith(p)] and [s.endswith(p)] *)
Definition startswith (s p : string) : bool := String.prefix p s.

Definition endswith (s p : string) : bool :=
  String.prefix (String.rev p) (String.rev s).

(** [p in s] for strings *)
Fixpoint contains (s p : string) : bool :=
  String.prefix p s
  || match s with
     | EmptyString => false
     | String _ s' => contains s' p
     end.

(** [s.split(sep)] for a one-character separator: never empty. *)
Fixpoint split_on (sep : ascii) (s : string) : list string :=
  match s with
  | EmptyString => [EmptyString]
  | String c s' =>
      if Ascii.eqb c sep then EmptyString :: split_on sep s'
      else
        match split_on sep s' with
        | w :: ws => String c w :: ws
        | [] => [String c EmptyString]
        end
  end.

(** [s.rstrip(c)] for one character [c] *)
Fixpoint rstrip_char (x : ascii) (s : string) : string :=
  match s with
  | EmptyString => EmptyString
  | String c s' =>
      match rstrip_char x s' with
      | EmptyString => if Ascii.eqb c x then EmptyString else String c EmptyString
      | r => String c r
      end
  end.

(** [c * n] *)
Fixpoint repeat (c : string) (n : nat) : string :=
  match n with
  | O => ""
  | S n' => c +:+ repeat c n'
  end.

(** [f"{s:>w}"] and [f"{s:<w}"] *)
Definition rjust (w : nat) (s : string) : string :=
  repeat " " (w - String.length s) +:+ s.

Definition ljust (w : nat) (s : string) : string :=
  s +:+ repeat " " (w - String.length s).

(** [str(n)] for a natural number *)
Definition of_nat (n : nat) : string := pretty n.

(** The double-quote character, and a string in double quotes. *)
Definition dquote : string := String (ascii_of_nat 34) EmptyString.

Definition quoted (s : string) : string := dquote +:+ s +:+ dquote.

Definition newline : string := String (ascii_of_nat 10) EmptyString.

Definition escape : string := String (ascii_of_nat 27) EmptyString.

(** A continuation byte of UTF-8: [0x80] to [0xBF]. *)
Definition continuation (c : ascii) : bool :=
  ((128 <=? code c) && (code c <=? 191))%nat.

(** [bytes.decode('utf-8', errors='ignore')]: a byte that cannot start
    a character is dropped; of a sequence that breaks off, the bytes
    before the one that does not fit are dropped and decoding goes on at
    that byte; a sequence the end of the data cuts short is dropped.
    [None] when a well-formed sequence stands for a code point above
    255, which no string here can hold. *)
Fixpoint decode_ignore (bytes : string) : option string :=
  match bytes with
  | EmptyString => Some EmptyString
  | String b1 rest1 =>
      let n1 := code b1 in
      if (n1 <? 128)%nat then String b1 <$> decode_ignore rest1
      else if ((n1 <? 194) || (244 <? n1))%nat then decode_ignore rest1
      else if (n1 <? 224)%nat then
        match rest1 with
        | EmptyString => Some EmptyString
        | String b2 rest2 =>
            if continuation b2 then
              if (n1 <? 196)%nat
              then String (ascii_of_nat ((n1 - 192) * 64 + (code b2 - 128)))
                     <$> decode_ignore rest2
              else None
            else decode_ignore rest1
        end
      else if (n1 <? 240)%nat then
        match rest1 with
        | EmptyString => Some EmptyString
        | String b2 rest2 =>
            if negb (continuation b2)
               || (if (code b2 <? 160)%nat then (n1 =? 224)%nat
                   else (n1 =? 237)%nat)
            then decode_ignore rest1
            else
              match rest2 with
              | EmptyString => Some EmptyString
              | String b3 rest3 =>
                  if continuation b3 then None else decode_ignore rest2
              end
        end
      else
        match rest1 with
        | EmptyString => Some EmptyString
        | String b2 rest2 =>
            if negb (continuation b2)
               || (if (code b2 <? 144)%nat then (n1 =? 240)%nat
                   else (n1 =? 244)%nat)
            then decode_ignore rest1
            else
              match rest2 with
              | EmptyString => Some EmptyString
              | String b3 rest3 =>
                  if continuation b3 then
                    match rest3 with
                    | EmptyString => Some EmptyString
                    | String b4 rest4 =>
                        if continuation b4 then None
                        else decode_ignore rest3
                    end
                  else decode_ignore rest2
              end
        end
  end.

(** Universal newlines, as text mode reads: [\r\n] and [\r] become
    [\n]. *)
Fixpoint universal_newlines (s : string) : string :=
  match s with
  | EmptyString => EmptyString
  | String c s' =>
      if (code c =? 13)%nat then
        match s' with
        | String c' s'' =>
            if (code c' =? 10)%nat then String c' (universal_newlines s'')
            else String (ascii_of_nat 10) (universal_newlines s')
        | EmptyString => newline
        end
      else String c (universal_newlines s')
  end.

End Str.

(** ** [posixpath]: path names as strings *)

Module Path.

Definition sep : ascii := "/"%char.

(** [os.path.isabs] *)
Definition isabs (p : string) : bool := Str.startswith p "/".

(** [os.path.join(a, b)] *)
Definition join (a b : string) : string :=
  if Str.startswith b "/" then b
  else if bool_decide (a = "") || Str.endswith a "/" then a +:+ b
  else a +:+ "/" +:+ b.

(** [(p[:i], p[i:])] for [i = p.rfind('/') + 1] *)
Fixpoint cut_last_sep (p : string) : string * string :=
  match p with
  | EmptyString => (EmptyString, EmptyString)
  | String c p' =>
      let (h, t) := cut_last_sep p' in
      if bool_decide (h = "") then
        if Ascii.eqb c sep then (String c EmptyString, p')
        else (EmptyString, String c p')
      else (String c h, t)
  end.

(** [os.path.split] *)
Definition split (p : string) : string * string :=
  let (head, tail) := cut_last_sep p in
  let stripped := Str.rstrip_char sep head in
  (if bool_decide (stripped = "") then head else stripped, tail).

(** [os.path.basename] *)
Definition basename (p : string) : string := snd (cut_last_sep p).

(** The loop of [os.path.normpath]; [new_comps] is kept innermost first. *)
Fixpoint normpath_loop (initial_slashes : nat) (new_comps comps : list string)
  : list string :=
  match comps with
  | [] => new_comps
  | comp :: rest =>
      if bool_decide (comp = "") || bool_decide (comp = ".")
      then normpath_loop initial_slashes new_comps rest
      else if negb (bool_decide (comp = ".."))
              || (bool_decide (initial_slashes = 0) && bool_decide (new_comps = []))
              || bool_decide (head new_comps = Some "..")
      then normpath_loop initial_slashes (comp :: new_comps) rest
      else normpath_loop initial_slashes (tail new_comps) rest
  end.

(** [os.path.normpath] *)
Definition normpath (path : string) : string :=
  if bool_decide (path = "") then "."
  else
    let initial_slashes :=
      if Str.startswith path "/" then
        if Str.startswith path "//" && negb (Str.startswith path "///")
        then 2 else 1
      else 0 in
    let comps := rev (normpath_loop initial_slashes [] (Str.split_on sep path)) in
    let path' := Str.repeat "/" initial_slashes +:+ Str.join "/" comps in
    if bool_decide (path' = "") then "." else path'.

End Path.

(** ** Exceptions *)

Inductive exn : Type :=
| FileNotFoundError (filename : string)
| FileExistsError (filename : string)
| NotADirectoryError (filename : string)
| IsADirectoryError (filename : string)
| PermissionError (filename : string)
| OSError (errno : nat) (strerror filename : string)
| ShutilError (msg : string)
| IndexError (msg : string)
| RecursionError (msg : string)
| OtherException (msg : string).

(** The file name is put between single quotes, as [repr] does for a
    name of printable characters with no quote and no backslash in
    it. *)
Definition os_error_str (errno : nat) (strerror filename : string) : string :=
  "[Errno " +:+ Str.of_nat errno +:+ "] " +:+ strerror +:+ ": '" +:+ filename +:+ "'".

(** [str(e)] *)
Definition str_exn (e : exn) : string :=
  match e with
  | FileNotFoundError f => os_error_str 2 "No such file or directory" f
  | FileExistsError f => os_error_str 17 "File exists" f
  | NotADirectoryError f => os_error_str 20 "Not a directory" f
  | IsADirectoryError f => os_error_str 21 "Is a directory" f
  | PermissionError f => os_error_str 13 "Permission denied" f
  | OSError n m f => os_error_str n m f
  | ShutilError m => m
  | IndexError m => m
  | RecursionError m => m
  | OtherException m => m
  end.

Definition is_PermissionError (e : exn) : bool :=
  match e with PermissionError _ => true | _ => false end.

(** [OSError] and its subclasses, [shutil.Error] among them *)
Definition is_OSError (e : exn) : bool :=
  match e with
  | FileNotFoundError _ | FileExistsError _ | NotADirectoryError _
  | IsADirectoryError _ | PermissionError _ | OSError _ _ _
  | ShutilError _ => true
  | _ => false
  end.

(** ** The file system *)

Inductive node : Type :=
| File (content : string)
| Dir.

Global Instance node_eq_dec : EqDecision node.
Proof. solve_decision. Defined.

Inductive lookup_error : Type := ENOENT | ENOTDIR.

Definition lookup_exn (e : lookup_error) (path : string) : exn :=
  match e with
  | ENOENT => FileNotFoundError path
  | ENOTDIR => NotADirectoryError path
  end.

Module Fs.

(** Name resolution from the directory [cur]: every component is looked
    up in a directory; [..] of the root is the root. *)
Fixpoint walk (fs : gmap (list string) node) (cur comps : list string)
  : lookup_error + list string :=
  match comps with
  | [] => inr cur
  | c :: rest =>
      match fs !! cur with
      | Some Dir =>
          if bool_decide (c = "") || bool_decide (c = ".") then walk fs cur rest
          else if bool_decide (c = "..") then walk fs (tail cur) rest
          else walk fs (c :: cur) rest
      | Some (File _) => inl ENOTDIR
      | None => inl ENOENT
      end
  end.

(** The location a path names, from the working directory [cwd]. The
    location itself need not exist; the directories on the way do. *)
Definition resolve (fs : gmap (list string) node) (cwd : list string)
    (path : string) : lookup_error + list string :=
  if bool_decide (path = "") then inl ENOENT
  else walk fs (if Path.isabs path then [] else cwd) (Str.split_on Path.sep path).

(** [os.stat] *)
Definition stat (fs : gmap (list string) node) (cwd : list string)
    (path : string) : lookup_error + (list string * node) :=
  match resolve fs cwd path with
  | inl e => inl e
  | inr k =>
      match fs !! k with
      | Some n => inr (k, n)
      | None => inl ENOENT
      end
  end.

(** [os.path.exists], [os.path.isdir], [os.path.isfile] *)
Definition exists_ (fs : gmap (list string) node) (cwd : list string)
    (path : string) : bool :=
  match stat fs cwd path with inr _ => true | inl _ => false end.

Definition isdir (fs : gmap (list string) node) (cwd : list string)
    (path : string) : bool :=
  match stat fs cwd path with inr (_, Dir) => true | _ => false end.

Definition isfile (fs : gmap (list string) node) (cwd : list string)
    (path : string) : bool :=
  match stat fs cwd path with inr (_, File _) => true | _ => false end.

(** The names in the directory at [k]. *)
Definition child_of (k : list string) (entry : list string * node)
  : option string :=
  match entry.1 with
  | n :: parent => if bool_decide (parent = k) then Some n else None
  | [] => None
  end.

Definition children (fs : gmap (list string) node) (k : list string)
  : list string :=
  omap (child_of k) (map_to_list fs).

(** The locations strictly below [k]. *)
Definition below (k k' : list string) : Prop := k `suffix_of` k' ∧ k ≠ k'.

Definition remove_below (fs : gmap (list string) node) (k : list string)
  : gmap (list string) node :=
  filter (λ kv : list string * node, ¬ below k kv.1) fs.

(** The tree at [k], as locations relative to [k]. *)
Definition relative_to (k : list string) (entry : list string * node)
  : option (list string * node) :=
  let n := length entry.1 - length k in
  if bool_decide (drop n entry.1 = k) then Some (take n entry.1, entry.2)
  else None.

Definition subtree (fs : gmap (list string) node) (k : list string)
  : list (list string * node) :=
  omap (relative_to k) (map_to_list fs).

(** Writing an entry where a directory already is leaves the directory
    ([mkdir] and opening for writing both refuse it). *)
Definition place (k : list string) (n : node) (fs : gmap (list string) node)
  : gmap (list string) node :=
  match fs !! k with
  | Some Dir => fs
  | _ => <[k := n]> fs
  end.

Definition graft (fs : gmap (list string) node) (k : list string)
    (tree : list (list string * node)) : gmap (list string) node :=
  foldr (λ (e : list string * node) m, place (e.1 ++ k)%list e.2 m) fs tree.

(** The last component of a path, trailing separators apart. *)
Definition last_component (path : string) : string :=
  Path.basename (Str.rstrip_char Path.sep path).

(** [os.getcwd]: the path of the working directory, when it still exists. *)
Definition render (k : list string) : string :=
  "/" +:+ Str.join "/" (rev k).

End Fs.

(** ** The world a command runs in *)

(** [current_directory] is the attribute of the [CommandHandler] object;
    [cwd] and [fs] belong to the process and the host; [env] is everything
    else the host knows (users, clock, processes). *)
Record world (Env : Type) : Type := World {
  current_directory : string;
  cwd : list string;
  fs : gmap (list string) node;
  env : Env
}.

Arguments World {Env} _ _ _ _.
Arguments current_directory {Env} _.
Arguments cwd {Env} _.
Arguments fs {Env} _.
Arguments env {Env} _.

(** What [subprocess.run] comes back with. *)
Inductive completed : Type :=
| CompletedProcess (returncode : Z) (stdout stderr : string)
| TimeoutExpired
| LaunchFailed (e : exn).

(** The collaborators of the engine: the host's user data base, clock,
    process table, pattern expansion and command interpreter. A command
    run by the interpreter may change the files and the environment; it
    cannot reach the engine's own attribute nor the working directory of
    the engine's process. *)
Class Host (Env : Type) : Type := {
  expanduser_home : Env -> string;
  getpass_getuser : Env -> exn + string;
  datetime_now : Env -> string;
  psutil_process_lines : Env -> exn + list string;
  psutil_system_info : Env -> exn + string;
  glob_glob : gmap (list string) node -> list string -> string -> list string;
  subprocess_run :
    string -> string -> gmap (list string) node -> Env ->
    completed * gmap (list string) node * Env
}.

(** ** The monad of handlers: state and exceptions *)

Definition M (Env A : Type) : Type := world Env -> (exn + A) * world Env.

Global Instance M_ret {Env : Type} : MRet (M Env) :=
  λ A (a : A) w, (inr a, w).

Global Instance M_bind {Env : Type} : MBind (M Env) :=
  λ A B (f : A -> M Env B) (m : M Env A) w,
    match m w with
    | (inl e, w') => (inl e, w')
    | (inr a, w') => f a w'
    end.

Definition raise {Env A : Type} (e : exn) : M Env A := λ w, (inl e, w).

(** [try: body except Exception as e: handler(e)] *)
Definition try_except {Env A : Type} (body : M Env A) (handler : exn -> M Env A)
  : M Env A :=
  λ w,
    match body w with
    | (inl e, w') => handler e w'
    | (inr a, w') => (inr a, w')
    end.

Definition get {Env : Type} : M Env (world Env) := λ w, (inr w, w).

Definition set_fs {Env : Type} (fs' : gmap (list string) node) : M Env unit :=
  λ w, (inr tt, World (current_directory w) (cwd w) fs' (env w)).

Definition set_cwd {Env : Type} (k : list string) : M Env unit :=
  λ w, (inr tt, World (current_directory w) k (fs w) (env w)).

Definition set_current_directory {Env : Type} (d : string) : M Env unit :=
  λ w, (inr tt, World d (cwd w) (fs w) (env w)).

(** A value or exception that is read off the world. *)
Definition observe {Env A : Type} (f : world Env -> exn + A) : M Env A :=
  λ w, (f w, w).

(** ** The operations of [os], [os.path], [shutil] and [pathlib] *)

Section OperatingSystem.

Context {Env : Type}.

Definition os_path_exists (path : string) : M Env bool :=
  observe (λ w, inr (Fs.exists_ (fs w) (cwd w) path)).

Definition os_path_isdir (path : string) : M Env bool :=
  observe (λ w, inr (Fs.isdir (fs w) (cwd w) path)).

Definition os_path_isfile (path : string) : M Env bool :=
  observe (λ w, inr (Fs.isfile (fs w) (cwd w) path)).

Definition os_getcwd : M Env string :=
  observe (λ w,
    match fs w !! cwd w with
    | Some Dir => inr (Fs.render (cwd w))
    | _ => inl (FileNotFoundError "")
    end).

Definition os_path_abspath (path : string) : M Env string :=
  if Path.isabs path then mret (Path.normpath path)
  else here ← os_getcwd; mret (Path.normpath (Path.join here path)).

Definition os_chdir (path : string) : M Env unit :=
  w ← get;
  match Fs.stat (fs w) (cwd w) path with
  | inl e => raise (lookup_exn e path)
  | inr (_, File _) => raise (NotADirectoryError path)
  | inr (k, Dir) => set_cwd k
  end.

Definition os_listdir (path : string) : M Env (list string) :=
  observe (λ w,
    match Fs.stat (fs w) (cwd w) path with
    | inl e => inl (lookup_exn e path)
    | inr (_, File _) => inl (NotADirectoryError path)
    | inr (k, Dir) => inr (Fs.children (fs w) k)
    end).

Definition os_path_getsize (path : string) : M Env nat :=
  observe (λ w,
    match Fs.stat (fs w) (cwd w) path with
    | inl e => inl (lookup_exn e path)
    | inr (_, File content) => inr (String.length content)
    | inr (_, Dir) => inr 4096
    end).

(** [open(path, 'rb').read()]: the bytes of a file *)
Definition open_read (path : string) : M Env string :=
  observe (λ w,
    match Fs.stat (fs w) (cwd w) path with
    | inl e => inl (lookup_exn e path)
    | inr (_, File content) => inr content
    | inr (_, Dir) => inl (IsADirectoryError path)
    end).

(** The text of a file that holds the bytes [content], as
    [open(path, 'r', encoding='utf-8', errors='ignore')] reads it:
    decoded, then with universal newlines. *)
Definition read_text (content : string) : option string :=
  Str.universal_newlines <$> Str.decode_ignore content.

(** [open(path, 'r', encoding='utf-8', errors='ignore').read()]. A text
    with a character above U+00FF is none of the strings at hand: the
    read is then given as an exception, which stands for no behaviour
    of the code. *)
Definition open_text (path : string) : M Env string :=
  observe (λ w,
    match Fs.stat (fs w) (cwd w) path with
    | inl e => inl (lookup_exn e path)
    | inr (_, File content) =>
        match read_text content with
        | Some text => inr text
        | None => inl (OtherException "character above U+00FF")
        end
    | inr (_, Dir) => inl (IsADirectoryError path)
    end).

Definition os_mkdir (path : string) : M Env unit :=
  w ← get;
  let stripped := Str.rstrip_char Path.sep path in
  let name := if bool_decide (stripped = "") then path else stripped in
  match Fs.resolve (fs w) (cwd w) name with
  | inl e => raise (lookup_exn e path)
  | inr k =>
      match fs w !! k with
      | Some _ => raise (FileExistsError path)
      | None => set_fs (<[k := Dir]> (fs w))
      end
  end.

Definition os_rmdir (path : string) : M Env unit :=
  w ← get;
  match Fs.stat (fs w) (cwd w) path with
  | inl e => raise (lookup_exn e path)
  | inr (_, File _) => raise (NotADirectoryError path)
  | inr (k, Dir) =>
      if bool_decide (Fs.last_component path = ".")
      then raise (OSError 22 "Invalid argument" path)
      else if bool_decide (k = [])
      then raise (OSError 16 "Device or resource busy" path)
      else if bool_decide (Fs.children (fs w) k = [])
      then set_fs (delete k (fs w))
      else raise (OSError 39 "Directory not empty" path)
  end.

(** [os.remove], also [os.unlink] *)
Definition os_remove (path : string) : M Env unit :=
  w ← get;
  match Fs.stat (fs w) (cwd w) path with
  | inl e => raise (lookup_exn e path)
  | inr (_, Dir) => raise (IsADirectoryError path)
  | inr (k, File _) => set_fs (delete k (fs w))
  end.

(** [shutil.rmtree]: empty the directory, then remove it by name. *)
Definition shutil_rmtree (path : string) : M Env unit :=
  w ← get;
  match Fs.stat (fs w) (cwd w) path with
  | inl e => raise (lookup_exn e path)
  | inr (_, File _) => raise (NotADirectoryError path)
  | inr (k, Dir) => set_fs (Fs.remove_below (fs w) k) ;; os_rmdir path
  end.

(** [os.makedirs(name, exist_ok=False)]; every call shortens [name]. *)
Fixpoint makedirs (fuel : nat) (name : string) : M Env unit :=
  match fuel with
  | O => raise (RecursionError "maximum recursion depth exceeded")
  | S fuel' =>
      let (head0, tail0) := Path.split name in
      let (head, tail) :=
        if bool_decide (tail0 = "") then Path.split head0 else (head0, tail0) in
      present ← os_path_exists head;
      if negb (bool_decide (head = "")) && negb (bool_decide (tail = ""))
         && negb present
      then
        try_except (makedirs fuel' head)
          (λ e, match e with FileExistsError _ => mret tt | _ => raise e end) ;;
        if bool_decide (tail = ".") then mret tt else os_mkdir name
      else os_mkdir name
  end.

Definition os_makedirs (name : string) : M Env unit :=
  makedirs (S (String.length name)) name.

(** [str(Path(path))]: separators collapsed, [.] components and a
    trailing separator dropped. *)
Definition pathlib_str (path : string) : string :=
  let root :=
    if Str.startswith path "/" then
      if Str.startswith path "//" && negb (Str.startswith path "///")
      then "//" else "/"
    else "" in
  let parts :=
    filter (λ c, c ≠ "" ∧ c ≠ ".") (Str.split_on Path.sep path) in
  let s := root +:+ Str.join "/" parts in
  if bool_decide (s = "") then "." else s.

(** [Path(path).touch()]: an existing entry is left as it is. *)
Definition Path_touch (path : string) : M Env unit :=
  w ← get;
  let p := pathlib_str path in
  if Fs.exists_ (fs w) (cwd w) p then mret tt
  else
    match Fs.resolve (fs w) (cwd w) p with
    | inl e => raise (lookup_exn e p)
    | inr k => set_fs (<[k := File ""]> (fs w))
    end.

(** [shutil.copy2]. Opening a name that ends in [/] and is not there
    for writing is refused as a directory, which [copyfile] turns into
    a [FileNotFoundError] with a text of its own; it is carried here
    by [ShutilError], an [OSError] like it that prints as its text. *)
Definition shutil_copy2 (src dst : string) : M Env unit :=
  into_dir ← os_path_isdir dst;
  let dst := if into_dir : bool then Path.join dst (Path.basename src) else dst in
  w ← get;
  match Fs.stat (fs w) (cwd w) src, Fs.stat (fs w) (cwd w) dst with
  | inr (ks, _), inr (kd, _) =>
      if bool_decide (ks = kd)
      then raise (ShutilError
                    ("'" +:+ src +:+ "' and '" +:+ dst +:+ "' are the same file"))
      else mret tt
  | _, _ => mret tt
  end ;;
  content ← open_read src;
  match Fs.resolve (fs w) (cwd w) dst with
  | inl e =>
      if Str.endswith dst "/"
         && match Fs.resolve (fs w) (cwd w) (Str.rstrip_char Path.sep dst) with
            | inr k => bool_decide (fs w !! k = None)
            | inl _ => false
            end
      then raise (ShutilError ("Directory does not exist: " +:+ dst))
      else raise (lookup_exn e dst)
  | inr k =>
      match fs w !! k with
      | Some Dir => raise (IsADirectoryError dst)
      | _ => set_fs (<[k := File content]> (fs w))
      end
  end.

(** [shutil.copytree]: the entries of [src] are read before [dst] is
    made. When [dst] lies inside [src] under an entry [src] had before,
    the library keeps descending into its own copy until the host
    refuses a name, and reports what was refused; here the tree is
    copied once and one refusal raised. Under an entry that is new the
    copy is not among the entries read, and the call ends well. *)
Definition shutil_copytree (src dst : string) : M Env unit :=
  w ← get;
  match Fs.stat (fs w) (cwd w) src with
  | inl e => raise (lookup_exn e src)
  | inr (_, File _) => raise (NotADirectoryError src)
  | inr (ks, Dir) =>
      let tree := Fs.subtree (fs w) ks in
      os_makedirs dst ;;
      w' ← get;
      match Fs.resolve (fs w') (cwd w') dst with
      | inl e => raise (lookup_exn e dst)
      | inr kd =>
          set_fs (Fs.graft (fs w') kd tree) ;;
          if bool_decide (ks `suffix_of` kd)
             && bool_decide
                  (is_Some (fs w !! drop (length kd - S (length ks)) kd))
          then raise (OSError 36 "File name too long" dst)
          else mret tt
      end
  end.

(** [os.rename] *)
Definition os_rename (src dst : string) : M Env unit :=
  w ← get;
  let both := src +:+ "' -> '" +:+ dst in
  match Fs.stat (fs w) (cwd w) src, Fs.resolve (fs w) (cwd w) dst with
  | inl e, _ => raise (lookup_exn e both)
  | _, inl e => raise (lookup_exn e both)
  | inr (ks, n), inr kd =>
      let moved :=
        Fs.graft (filter (λ kv : list string * node, ¬ ks `suffix_of` kv.1) (fs w))
                 kd (Fs.subtree (fs w) ks) in
      if bool_decide (ks = kd) then mret tt
      else if bool_decide (Fs.last_component src = ".")
              || bool_decide (Fs.last_component src = "..")
      then raise (OSError 16 "Device or resource busy" both)
      else
        match n, fs w !! kd with
        | Dir, Some (File _) => raise (NotADirectoryError both)
        | Dir, Some Dir =>
            if bool_decide (Fs.children (fs w) kd = [])
            then set_fs moved
            else raise (OSError 39 "Directory not empty" both)
        | Dir, None =>
            if bool_decide (ks `suffix_of` kd)
            then raise (OSError 22 "Invalid argument" both)
            else set_fs moved
        | File _, Some Dir => raise (IsADirectoryError both)
        | File _, _ => set_fs (<[kd := n]> (delete ks (fs w)))
        end
  end.

(** [shutil._destinsrc] *)
Definition destinsrc (src dst : string) : M Env bool :=
  src ← os_path_abspath src;
  dst ← os_path_abspath dst;
  let src := if Str.endswith src "/" then src else src +:+ "/" in
  let dst := if Str.endswith dst "/" then dst else dst +:+ "/" in
  mret (Str.startswith dst src).

(** [shutil._samefile] *)
Definition samefile (src dst : string) : M Env bool :=
  observe (λ w,
    match Fs.stat (fs w) (cwd w) src, Fs.stat (fs w) (cwd w) dst with
    | inr (ks, _), inr (kd, _) => inr (bool_decide (ks = kd))
    | _, _ => inr false
    end).

(** [shutil.move]; the fall-back runs when [os.rename] is refused. *)
Definition shutil_move (src dst : string) : M Env unit :=
  into_dir ← os_path_isdir dst;
  same ← samefile src dst;
  if (into_dir : bool) && (same : bool) then os_rename src dst
  else
    real_dst ←
      (if into_dir then
         let real_dst :=
           Path.join dst (Path.basename (Str.rstrip_char Path.sep src)) in
         present ← os_path_exists real_dst;
         if present : bool
         then raise (ShutilError
                       ("Destination path '" +:+ real_dst +:+ "' already exists"))
         else mret real_dst
       else mret dst);
    try_except (os_rename src real_dst)
      (λ e,
         if is_OSError e then
           src_is_dir ← os_path_isdir src;
           if src_is_dir : bool then
             inside ← destinsrc src dst;
             if inside : bool
             then raise (ShutilError
                           ("Cannot move a directory '" +:+ src
                            +:+ "' into itself '" +:+ dst +:+ "'."))
             else shutil_copytree src real_dst ;; shutil_rmtree src
           else shutil_copy2 src real_dst ;; os_remove src
         else raise e).

(** [os.walk(top)]: one triple per directory, top down; a directory
    that cannot be listed is passed over. The depth is bounded by the
    number of entries: no directory lies deeper than that. *)
Fixpoint walk_tree (depth : nat) (w : world Env) (top : string)
  : list (string * list string * list string) :=
  match depth with
  | O => []
  | S depth' =>
      match Fs.stat (fs w) (cwd w) top with
      | inr (k, Dir) =>
          let names := Fs.children (fs w) k in
          let dirs :=
            filter (λ n, Fs.isdir (fs w) (cwd w) (Path.join top n) = true) names in
          let nondirs :=
            filter (λ n, Fs.isdir (fs w) (cwd w) (Path.join top n) ≠ true) names in
          (top, dirs, nondirs)
            :: concat (map (λ d, walk_tree depth' w (Path.join top d)) dirs)
      | _ => []
      end
  end.

Definition os_walk (top : string)
  : M Env (list (string * list string * list string)) :=
  observe (λ w, inr (walk_tree (S (size (fs w))) w top)).

End OperatingSystem.

(** ** The command handler *)

(** The record every command returns. *)
Record result : Type := Result {
  success : bool;
  output : string;
  error : string
}.

Definition ok (out : string) : result := Result true out "".

Definition failure (err : string) : result := Result false "" err.

(** The text of [help], before [strip]. *)
Definition help_text : string := "
Available Commands:
==================
File Operations:
  ls, dir          - List directory contents
  pwd             - Print working directory
  cd <path>       - Change directory
  mkdir <name>    - Create directory
  rmdir <name>    - Remove empty directory
  rm <file>       - Remove file (use -r for directories, -f to force)
  touch <file>    - Create empty file
  cat <file>      - Show file content
  cp <src> <dst>  - Copy file
  mv <src> <dst>  - Move/rename file

System Commands:
  ps              - Show running processes
  top             - Show system information
  whoami          - Show current user
  date            - Show current date/time
  clear, cls      - Clear screen

Utilities:
  echo <text>     - Print text
  find <pattern>  - Find files matching pattern
  grep <pattern>  - Search for text in files
  help            - Show this help
  exit, quit      - Exit terminal

Examples:
  ls -l           - List with details
  cd ..           - Go to parent directory
  mkdir test      - Create 'test' directory
  rm -rf folder   - Remove folder and contents
        ".

(** The methods bound in [supported_commands]. *)
Inductive handler : Type :=
| list_directory | print_working_directory | change_directory
| make_directory | remove_directory | remove_file | create_file
| show_file_content | clear_screen | show_help | show_processes
| whoami | show_date | echo | copy_file | move_file | find_files
| grep_files | show_system_info | exit.

Global Instance handler_eq_dec : EqDecision handler.
Proof. solve_decision. Defined.

(** [self.supported_commands] *)
Definition supported_commands : gmap string handler :=
  list_to_map
    [ ("ls", list_directory); ("dir", list_directory);
      ("pwd", print_working_directory);
      ("cd", change_directory);
      ("mkdir", make_directory);
      ("rmdir", remove_directory);
      ("rm", remove_file); ("del", remove_file);
      ("touch", create_file);
      ("cat", show_file_content); ("type", show_file_content);
      ("clear", clear_screen); ("cls", clear_screen);
      ("help", show_help);
      ("ps", show_processes);
      ("whoami", whoami);
      ("date", show_date);
      ("echo", echo);
      ("cp", copy_file); ("copy", copy_file);
      ("mv", move_file); ("move", move_file);
      ("find", find_files);
      ("grep", grep_files);
      ("top", show_system_info);
      ("exit", exit); ("quit", exit) ].

(** [sorted(entries)]: by code point. *)
Definition sorted (entries : list string) : list string :=
  merge_sort (λ a b : string, Is_true (String.leb a b)) entries.

(** The lines of a text file as iteration yields them: each keeps its
    end, which reads as [\n] whether written [\n], [\r\n] or [\r]. *)
Fixpoint readlines (s : string) : list string :=
  match s with
  | EmptyString => []
  | String c s' =>
      if (Str.code c =? 10)%nat then Str.newline :: readlines s'
      else if (Str.code c =? 13)%nat then
        match s' with
        | String c' _ =>
            if (Str.code c' =? 10)%nat then readlines s'
            else Str.newline :: readlines s'
        | EmptyString => [Str.newline]
        end
      else
        match readlines s' with
        | l :: ls => String c l :: ls
        | [] => [String c EmptyString]
        end
  end.

Section CommandHandler.

Context {Env : Type} `{!Host Env}.

(** [except Exception as e: return {... "error": str(e)}] *)
Definition report (e : exn) : M Env result := mret (failure (str_exn e)).

Definition _resolve_path (path : string) : M Env string :=
  if Path.isabs path then mret path
  else w ← get; mret (Path.join (current_directory w) path).

Definition _parse_command (command_line : string) : list string :=
  Str.split (Str.strip command_line).

(** The body of the loop of [_list_directory]. *)
Definition list_entry (path entry : string) : M Env string :=
  let full_path := Path.join path entry in
  is_dir ← os_path_isdir full_path;
  if is_dir : bool then mret ("[DIR]  " +:+ entry)
  else
    size ← os_path_getsize full_path;
    mret ("[FILE] " +:+ entry +:+ " (" +:+ Str.of_nat size +:+ " bytes)").

Fixpoint list_entries (path : string) (entries : list string)
  : M Env (list string) :=
  match entries with
  | [] => mret []
  | entry :: rest =>
      item ← list_entry path entry;
      items ← list_entries path rest;
      mret (item :: items)
  end.

Definition _list_directory (args : list string) : M Env result :=
  try_except
    (w ← get;
     path ← _resolve_path (match args with a :: _ => a | [] => current_directory w end);
     present ← os_path_exists path;
     if negb present
     then mret (failure ("Path '" +:+ path +:+ "' does not exist"))
     else
       is_dir ← os_path_isdir path;
       if negb is_dir
       then mret (failure ("'" +:+ path +:+ "' is not a directory"))
       else
         listed ←
           try_except
             (entries ← os_listdir path;
              items ← list_entries path (sorted entries);
              mret (inr items))
             (λ e,
                if is_PermissionError e
                then mret (inl (failure ("Permission denied accessing '"
                                         +:+ path +:+ "'")))
                else raise e);
         match listed with
         | inl r => mret r
         | inr [] => mret (ok "Directory is empty")
         | inr items => mret (ok (Str.join Str.newline items))
         end)
    report.

Definition _print_working_directory (args : list string) : M Env result :=
  w ← get; mret (ok (current_directory w)).

Definition _change_directory (args : list string) : M Env result :=
  try_except
    (w ← get;
     target ← _resolve_path
                (match args with
                 | [] => expanduser_home (env w)
                 | a :: _ => a
                 end);
     present ← os_path_exists target;
     if negb present
     then mret (failure ("Directory '" +:+ target +:+ "' does not exist"))
     else
       is_dir ← os_path_isdir target;
       if negb is_dir
       then mret (failure ("'" +:+ target +:+ "' is not a directory"))
       else
         absolute ← os_path_abspath target;
         set_current_directory absolute ;;
         os_chdir absolute ;;
         mret (ok ("Changed directory to: " +:+ absolute)))
    (λ e,
       if is_PermissionError e
       then mret (failure "Permission denied accessing directory")
       else report e).

Fixpoint make_directories (args : list string) : M Env (option result) :=
  match args with
  | [] => mret None
  | dirname :: rest =>
      path ← _resolve_path dirname;
      present ← os_path_exists path;
      if present : bool
      then mret (Some (failure ("Directory '" +:+ path +:+ "' already exists")))
      else os_makedirs path ;; make_directories rest
  end.

Definition _make_directory (args : list string) : M Env result :=
  try_except
    (match args with
     | [] => mret (failure "mkdir: missing directory name")
     | _ =>
         stopped ← make_directories args;
         match stopped with
         | Some r => mret r
         | None => mret (ok ("Created directory(s): " +:+ Str.join ", " args))
         end
     end)
    report.

Fixpoint remove_directories (args : list string) : M Env (option result) :=
  match args with
  | [] => mret None
  | dirname :: rest =>
      path ← _resolve_path dirname;
      present ← os_path_exists path;
      if negb present
      then mret (Some (failure ("Directory '" +:+ path +:+ "' does not exist")))
      else
        is_dir ← os_path_isdir path;
        if negb is_dir
        then mret (Some (failure ("'" +:+ path +:+ "' is not a directory")))
        else
          entries ← os_listdir path;
          match entries with
          | _ :: _ =>
              mret (Some (failure
                ("Directory '" +:+ path
                 +:+ "' is not empty. Use 'rm -r' to remove non-empty directories")))
          | [] => os_rmdir path ;; remove_directories rest
          end
  end.

Definition _remove_directory (args : list string) : M Env result :=
  try_except
    (match args with
     | [] => mret (failure "rmdir: missing directory name")
     | _ =>
         stopped ← remove_directories args;
         match stopped with
         | Some r => mret r
         | None => mret (ok ("Removed directory(s): " +:+ Str.join ", " args))
         end
     end)
    report.

(** The loop of [_remove_file]: either the early [return], or the
    items removed. *)
Fixpoint remove_files (recursive force : bool) (files removed_items : list string)
  : M Env (result + list string) :=
  match files with
  | [] => mret (inr removed_items)
  | filename :: rest =>
      path ← _resolve_path filename;
      present ← os_path_exists path;
      if negb present && negb force
      then mret (inl (failure ("File/directory '" +:+ path +:+ "' does not exist")))
      else
        is_dir ← os_path_isdir path;
        if is_dir : bool then
          if recursive then
            shutil_rmtree path ;;
            remove_files recursive force rest
              (removed_items ++ ["directory '" +:+ filename +:+ "' and its contents"])%list
          else
            mret (inl (failure
              ("'" +:+ path +:+ "' is a directory. Use -r flag to remove directories")))
        else
          os_remove path ;;
          remove_files recursive force rest
            (removed_items ++ ["file '" +:+ filename +:+ "'"])%list
  end.

Definition _remove_file (args : list string) : M Env result :=
  try_except
    (match args with
     | [] => mret (failure "rm: missing file/directory name")
     | _ =>
         let recursive := bool_decide ("-r" ∈ args) || bool_decide ("-rf" ∈ args) in
         let force := bool_decide ("-f" ∈ args) || bool_decide ("-rf" ∈ args) in
         let files := filter (λ arg, Str.startswith arg "-" = false) args in
         match files with
         | [] => mret (failure "rm: missing file/directory name")
         | _ =>
             done ← remove_files recursive force files [];
             match done with
             | inl r => mret r
             | inr removed_items =>
                 mret (ok ("Removed: " +:+ Str.join ", " removed_items))
             end
         end
     end)
    report.

Fixpoint create_files (args : list string) : M Env unit :=
  match args with
  | [] => mret tt
  | filename :: rest =>
      path ← _resolve_path filename;
      Path_touch path ;;
      create_files rest
  end.

Definition _create_file (args : list string) : M Env result :=
  try_except
    (match args with
     | [] => mret (failure "touch: missing filename")
     | _ =>
         create_files args ;;
         mret (ok ("Created file(s): " +:+ Str.join ", " args))
     end)
    report.

Definition _show_file_content (args : list string) : M Env result :=
  try_except
    (match args with
     | [] => mret (failure "cat: missing filename")
     | filename :: _ =>
         path ← _resolve_path filename;
         present ← os_path_exists path;
         if negb present
         then mret (failure ("File '" +:+ path +:+ "' does not exist"))
         else
           is_dir ← os_path_isdir path;
           if is_dir : bool
           then mret (failure ("'" +:+ path +:+ "' is a directory"))
           else content ← open_text path; mret (ok content)
     end)
    report.

Definition _clear_screen (args : list string) : M Env result :=
  mret (ok (Str.escape +:+ "[2J" +:+ Str.escape +:+ "[H")).

Definition _show_help (args : list string) : M Env result :=
  mret (ok (Str.strip help_text)).

Definition _show_processes (args : list string) : M Env result :=
  try_except
    (processes ← observe (λ w, psutil_process_lines (env w));
     let header :=
       Str.rjust 6 "PID" +:+ " " +:+ Str.ljust 30 "NAME" +:+ " "
       +:+ Str.rjust 6 "CPU%" in
     mret (ok (header +:+ Str.newline +:+ Str.repeat "-" 50 +:+ Str.newline
               +:+ Str.join Str.newline (take 20 processes))))
    report.

Definition _whoami (args : list string) : M Env result :=
  try_except
    (user ← observe (λ w, getpass_getuser (env w)); mret (ok user))
    report.

Definition _show_date (args : list string) : M Env result :=
  try_except
    (now ← observe (λ w, inr (datetime_now (env w))); mret (ok now))
    report.

Definition _echo (args : list string) : M Env result :=
  mret (ok (Str.join " " args)).

Definition _copy_file (args : list string) : M Env result :=
  try_except
    (match args with
     | a0 :: a1 :: _ =>
         src ← _resolve_path a0;
         dst ← _resolve_path a1;
         present ← os_path_exists src;
         if negb present
         then mret (failure ("Source '" +:+ src +:+ "' does not exist"))
         else
           is_dir ← os_path_isdir src;
           (if is_dir : bool then shutil_copytree src dst
            else shutil_copy2 src dst) ;;
           mret (ok ("Copied '" +:+ a0 +:+ "' to '" +:+ a1 +:+ "'"))
     | _ => mret (failure "cp: missing source or destination")
     end)
    report.

Definition _move_file (args : list string) : M Env result :=
  try_except
    (match args with
     | a0 :: a1 :: _ =>
         src ← _resolve_path a0;
         dst ← _resolve_path a1;
         present ← os_path_exists src;
         if negb present
         then mret (failure ("Source '" +:+ src +:+ "' does not exist"))
         else
           shutil_move src dst ;;
           mret (ok ("Moved '" +:+ a0 +:+ "' to '" +:+ a1 +:+ "'"))
     | _ => mret (failure "mv: missing source or destination")
     end)
    report.

(** The matches of [_find_files] in one triple of [os.walk]. *)
Definition find_in (pattern : string)
    (triple : string * list string * list string) : list string :=
  let '(root, _, files) := triple in
  map (Path.join root)
      (filter (λ file, Str.contains (Str.lower file) (Str.lower pattern) = true)
              files).

Definition _find_files (args : list string) : M Env result :=
  try_except
    (match args with
     | [] => mret (failure "find: missing pattern")
     | pattern :: more =>
         w ← get;
         search_path ← _resolve_path
                         (match more with
                          | a1 :: _ => a1
                          | [] => current_directory w
                          end);
         triples ← os_walk search_path;
         match concat (map (find_in pattern) triples) with
         | [] => mret (ok "No files found matching pattern")
         | matches => mret (ok (Str.join Str.newline matches))
         end
     end)
    report.

(** The matching lines of one file, numbered from [line_num]. *)
Fixpoint grep_lines (pattern filepath : string) (line_num : nat)
    (lines : list string) : list string :=
  match lines with
  | [] => []
  | line :: rest =>
      if Str.contains (Str.lower line) (Str.lower pattern)
      then (filepath +:+ ":" +:+ Str.of_nat line_num +:+ ":" +:+ Str.strip line)
             :: grep_lines pattern filepath (S line_num) rest
      else grep_lines pattern filepath (S line_num) rest
  end.

Fixpoint grep_file_list (pattern : string) (file_list : list string)
  : M Env (list string) :=
  match file_list with
  | [] => mret []
  | filepath :: rest =>
      is_file ← os_path_isfile filepath;
      found ←
        (if is_file : bool then
           try_except
             (content ← open_text filepath;
              mret (grep_lines pattern filepath 1 (readlines content)))
             (λ _, mret [])
         else mret []);
      more ← grep_file_list pattern rest;
      mret (found ++ more)%list
  end.

Fixpoint grep_patterns (pattern : string) (files : list string)
  : M Env (list string) :=
  match files with
  | [] => mret []
  | file_pattern :: rest =>
      file_path ← _resolve_path file_pattern;
      w ← get;
      present ← os_path_exists file_path;
      let file_list :=
        if Str.contains file_pattern "*"
        then glob_glob (fs w) (cwd w) file_path
        else if present : bool then [file_path] else [] in
      found ← grep_file_list pattern file_list;
      more ← grep_patterns pattern rest;
      mret (found ++ more)%list
  end.

Definition _grep_files (args : list string) : M Env result :=
  try_except
    (match args with
     | [] => mret (failure "grep: missing pattern")
     | pattern :: more =>
         let files := match more with [] => ["*"] | _ => more end in
         found ← grep_patterns pattern files;
         match found with
         | [] => mret (ok "No matches found")
         | matches => mret (ok (Str.join Str.newline matches))
         end
     end)
    report.

Definition _show_system_info (args : list string) : M Env result :=
  try_except
    (info ← observe (λ w, psutil_system_info (env w)); mret (ok info))
    report.

Definition _exit (args : list string) : M Env result :=
  mret (ok "exit").

Definition _execute_system_command (command_line : string) : M Env result :=
  λ w,
    let '(outcome, fs', env') :=
      subprocess_run command_line (current_directory w) (fs w) (env w) in
    let w' := World (current_directory w) (cwd w) fs' env' in
    match outcome with
    | CompletedProcess returncode stdout stderr =>
        (inr (Result (returncode =? 0)%Z stdout stderr), w')
    | TimeoutExpired =>
        (inr (failure "Command timed out after 30 seconds"), w')
    | LaunchFailed e =>
        (inr (failure ("Command not found: " +:+ str_exn e)), w')
    end.

(** The method a name of the table is bound to. *)
Definition call (h : handler) : list string -> M Env result :=
  match h with
  | list_directory => _list_directory
  | print_working_directory => _print_working_directory
  | change_directory => _change_directory
  | make_directory => _make_directory
  | remove_directory => _remove_directory
  | remove_file => _remove_file
  | create_file => _create_file
  | show_file_content => _show_file_content
  | clear_screen => _clear_screen
  | show_help => _show_help
  | show_processes => _show_processes
  | whoami => _whoami
  | show_date => _show_date
  | echo => _echo
  | copy_file => _copy_file
  | move_file => _move_file
  | find_files => _find_files
  | grep_files => _grep_files
  | show_system_info => _show_system_info
  | exit => _exit
  end.

(** [execute_command] over any table of handlers. *)
Definition execute_command_with
    (table : gmap string (list string -> M Env result))
    (command_line : string) : M Env result :=
  try_except
    (if bool_decide (Str.strip command_line = "") then mret (Result true "" "")
     else
       match _parse_command command_line with
       | [] => raise (IndexError "list index out of range")
       | first :: args =>
           let command := Str.lower first in
           match table !! command with
           | Some method => method args
           | None => _execute_system_command command_line
           end
       end)
    (λ e, mret (Result false "" ("Error executing command: " +:+ str_exn e))).

Definition execute_command (command_line : string) : M Env result :=
  execute_command_with (call <$> supported_commands) command_line.

(** A session: the lines given to [execute_command], one after another. *)
Fixpoint session (lines : list string) (w : world Env) : world Env :=
  match lines with
  | [] => w
  | line :: rest => session rest (execute_command line w).2
  end.

End CommandHandler.

(** The engine as constructed: [self.current_directory = os.getcwd()]. *)
Definition initial {Env : Type} (start : list string)
    (files : gmap (list string) node) (e : Env) : world Env :=
  World (Fs.render start) start files e.

(** ** A host and a file system to run on

    [/home/u/d/f] is a file of two lines, [/home/u/e] an empty directory;
    the command interpreter knows no command. *)

Global Instance sample_host : Host unit := {|
  expanduser_home := λ _, "/home/u";
  getpass_getuser := λ _, inr "u";
  datetime_now := λ _, "2024-01-01 00:00:00";
  psutil_process_lines := λ _, inr [];
  psutil_system_info := λ _, inr "";
  glob_glob := λ _ _ _, [];
  subprocess_run := λ _ _ files e,
    (CompletedProcess 127 "" "command not found", files, e)
|}.

Definition sample_files : gmap (list string) node :=
  list_to_map
    [ ([], Dir); (["home"], Dir); (["u"; "home"], Dir);
      (["d"; "u"; "home"], Dir);
      (["f"; "d"; "u"; "home"], File ("hello" +:+ Str.newline +:+ "world"));
      (["e"; "u"; "home"], Dir) ].

Definition sample_world : world unit :=
  initial ["u"; "home"] sample_files tt.

(** A handler that raises, for a table of one command. *)
Definition faulty_table : gmap string (list string -> M unit result) :=
  {[ "boom" := λ _, raise (OtherException "boom failed") ]}.

(** ** Vocabulary of the properties *)

(** [m] moves every world to one related to it by [R]. *)
Definition respects {Env A : Type} (R : relation (world Env)) (m : M Env A)
  : Prop :=
  ∀ w, R w (m w).2.

(** The attribute [current_directory] is the same in both worlds. *)
Definition same_directory {Env : Type} : relation (world Env) :=
  λ w w', current_directory w' = current_directory w.

(** The attribute is the same and every directory is still a directory. *)
Definition grows {Env : Type} : relation (world Env) :=
  λ w w', current_directory w' = current_directory w
          ∧ ∀ k, fs w !! k = Some Dir → fs w' !! k = Some Dir.

(** A component that names an entry: not empty, not [.] nor [..]. *)
Definition real_name (c : string) : Prop := c ≠ "" ∧ c ≠ "." ∧ c ≠ "..".

(** No [/] in the string. *)
Fixpoint slash_free (s : string) : Prop :=
  match s with
  | EmptyString => True
  | String c s' => Ascii.eqb c Path.sep = false ∧ slash_free s'
  end.

(** The name of an entry in a directory. *)
Definition entry_name (c : string) : Prop := real_name c ∧ slash_free c.

(** Every directory above the location [k] is a directory. *)
Fixpoint chain (fs : gmap (list string) node) (k : list string) : Prop :=
  match k with
  | [] => True
  | _ :: parent => fs !! parent = Some Dir ∧ chain fs parent
  end.

(** No whitespace in the string, which is not empty: a token. *)
Fixpoint space_free (s : string) : Prop :=
  match s with
  | EmptyString => True
  | String c s' => Str.isspace c = false ∧ space_free s'
  end.

Definition token (s : string) : Prop := s ≠ "" ∧ space_free s.

(** The session state is sound: the attribute is an absolute path that
    names a directory. *)
Definition directory_ok {Env : Type} (w : world Env) : Prop :=
  Path.isabs (current_directory w) = true
  ∧ Fs.isdir (fs w) (cwd w) (current_directory w) = true.

(** The handlers that remove or rename entries. *)
Definition removes_entries (h : handler) : bool :=
  match h with
  | remove_directory | remove_file | move_file => true
  | _ => false
  end.

(** A line that is blank or runs a built-in command that removes and
    renames nothing. *)
Definition harmless (command_line : string) : bool :=
  match _parse_command command_line with
  | [] => true
  | first :: _ =>
      match supported_commands !! Str.lower first with
      | Some h => negb (removes_entries h)
      | None => false
      end
  end.

Section Targets.

Context {Env : Type} `{!Host Env}.

(** The path [_change_directory] validates. *)
Definition cd_argument (args : list string) (w : world Env) : string :=
  match args with
  | [] => expanduser_home (env w)
  | a :: _ => a
  end.

(** [_resolve_path], read off the world. *)
Definition resolved (path : string) (w : world Env) : string :=
  if Path.isabs path then path else Path.join (current_directory w) path.

End Targets.

(** ** Vocabulary of the further properties *)

(** [m] returns a value from every world: it raises nothing. *)
Definition returns {Env A : Type} (m : M Env A) : Prop :=
  ∀ w, ∃ a w', m w = (inr a, w').

(** The handlers that only look at the world. *)
Definition reads_only (h : handler) : bool :=
  match h with
  | list_directory | print_working_directory | show_file_content
  | clear_screen | show_help | show_processes | whoami | show_date | echo
  | find_files | grep_files | show_system_info | exit => true
  | _ => false
  end.

(** What a handler that needs an argument says when it has none. *)
Definition missing_argument (h : handler) : option string :=
  match h with
  | make_directory => Some "mkdir: missing directory name"
  | remove_directory => Some "rmdir: missing directory name"
  | remove_file => Some "rm: missing file/directory name"
  | create_file => Some "touch: missing filename"
  | show_file_content => Some "cat: missing filename"
  | copy_file => Some "cp: missing source or destination"
  | move_file => Some "mv: missing source or destination"
  | find_files => Some "find: missing pattern"
  | grep_files => Some "grep: missing pattern"
  | _ => None
  end.

(** How many arguments such a handler needs. *)
Definition arguments_needed (h : handler) : nat :=
  match h with
  | copy_file | move_file => 2
  | _ => 1
  end.

(** A line made of whitespace only. *)
Definition blank (s : string) : Prop :=
  Forall (λ c, Str.isspace c = true) (list_ascii_of_string s).

(** The last character of a string. *)
Fixpoint last_char (s : string) : option ascii :=
  match s with
  | EmptyString => None
  | String c EmptyString => Some c
  | String _ s' => last_char s'
  end.

(** The location [k] is reached by its own path [Fs.render k]: its
    components are names of entries and every directory above it is
    one. *)
Definition located (files : gmap (list string) node) (k : list string) : Prop :=
  Forall entry_name k ∧ chain files k ∧ files !! [] = Some Dir.

(** Plain text: bytes of ASCII, none of them a carriage return. *)
Fixpoint plain (s : string) : Prop :=
  match s with
  | EmptyString => True
  | String c s' => (Str.code c < 128)%nat ∧ Str.code c ≠ 13 ∧ plain s'
  end.

(** The bytes of a file with line ends of three kinds, a byte that is
    no UTF-8 and the two bytes of a Latin-1 letter; and a world that
    has it as [/home/u/t]. *)
Definition mixed_bytes : string :=
  String "a" (String (ascii_of_nat 13) (String (ascii_of_nat 10)
  (String "b" (String (ascii_of_nat 13)
  (String "c" (String (ascii_of_nat 10)
  (String (ascii_of_nat 255)
  (String (ascii_of_nat 195) (String (ascii_of_nat 169) EmptyString))))))))).

Definition mixed_text : string :=
  String "a" (String (ascii_of_nat 10)
  (String "b" (String (ascii_of_nat 10)
  (String "c" (String (ascii_of_nat 10)
  (String (ascii_of_nat 233) EmptyString)))))).

Definition mixed_world : world unit :=
  initial ["u"; "home"]
    (<[["t"; "u"; "home"] := File mixed_bytes]> sample_files) tt.

(** The line of [ls] for the entry [n] of the directory at [k]. *)
Definition ls_line (files : gmap (list string) node) (k : list string)
    (n : string) : string :=
  match files !! (n :: k) with
  | Some Dir => "[DIR]  " +:+ n
  | Some (File content) =>
      "[FILE] " +:+ n +:+ " (" +:+ Str.of_nat (String.length content)
      +:+ " bytes)"
  | None => ""
  end.

(** ** The terminal: [terminal.py] *)

(** The constants of [colorama] the terminal prints with. *)
Module Fore.

Definition GREEN : string := Str.escape +:+ "[32m".

Definition WHITE : string := Str.escape +:+ "[37m".

Definition RED : string := Str.escape +:+ "[31m".

Definition CYAN : string := Str.escape +:+ "[36m".

End Fore.

Module Style.

Definition RESET_ALL : string := Str.escape +:+ "[0m".

End Style.

(** [Completion(text, start_position=...)] *)
Record Completion : Type := MkCompletion {
  completion_text : string;
  start_position : Z
}.

(** [list(command_handler.supported_commands.keys())]: the names in the
    order the dictionary was written in. *)
Definition commands : list string :=
  [ "ls"; "dir"; "pwd"; "cd"; "mkdir"; "rmdir"; "rm"; "del"; "touch";
    "cat"; "type"; "clear"; "cls"; "help"; "ps"; "whoami"; "date"; "echo";
    "cp"; "copy"; "mv"; "move"; "find"; "grep"; "top"; "exit"; "quit" ].

(** What [prompt] comes back with: the line entered, or the exception
    of Ctrl+C or Ctrl+D. *)
Inductive entered : Type :=
| Line (user_input : string)
| KeyboardInterrupt
| EOFError.

(** What the terminal does on the screen. *)
Inductive action : Type :=
| Prompt (prompt_text : string)
| Print (text : string)
| System (command : string).

(** How far [run] has come when the input so far is used up: at the
    prompt, returned after [break], or left through [sys.exit]. *)
Inductive status : Type :=
| Waiting
| Returned
| Exited (code : Z).

(** The inputs the loop acts on: the lines that are not blank, and the
    end of the input. *)
Definition significant (input : entered) : bool :=
  match input with
  | Line user_input => negb (bool_decide (Str.strip user_input = ""))
  | KeyboardInterrupt => false
  | EOFError => true
  end.

Section Terminal.

Context {Env : Type} `{!Host Env}.

(** [os.path.dirname] *)
Definition dirname (p : string) : string := (Path.split p).1.

(** [CommandCompleter._complete_path]: the entries of the directory the
    word points into that begin with the rest of the word. *)
Definition _complete_path (current_word : string) (w : world Env)
  : list Completion :=
  let '(base_path, prefix) :=
    if Str.startswith current_word "/"
       || ((1 <? String.length current_word)%nat
           && bool_decide (String.get 1 current_word = Some ":"%char))
    then
      (if bool_decide (current_word = "") then "/" else dirname current_word,
       if bool_decide (current_word = "") then ""
       else Path.basename current_word)
    else if bool_decide (current_word = "") then (current_directory w, "")
    else if Str.contains current_word "/"
    then (Path.join (current_directory w) (dirname current_word),
          Path.basename current_word)
    else (current_directory w, current_word) in
  if Fs.exists_ (fs w) (cwd w) base_path then
    match os_listdir base_path w with
    | (inr items, _) =>
        (λ item,
           let full_path := Path.join base_path item in
           MkCompletion
             (if Fs.isdir (fs w) (cwd w) full_path then item +:+ "/" else item)
             (- Z.of_nat (String.length prefix)))
          <$> filter (λ item, Str.startswith item prefix = true) items
    | (inl _, _) => []
    end
  else [].

(** [CommandCompleter.get_completions]: what the generator yields. In
    the branch of arguments [_complete_path] is called and the generator
    it returns is dropped, so nothing of it is yielded. *)
Definition get_completions (text_before_cursor : string) (w : world Env)
  : list Completion :=
  let text := text_before_cursor in
  let words := Str.split text in
  if bool_decide (words = [])
     || (bool_decide (length words = 1) && negb (Str.endswith text " "))
  then
    let current_word := match words with word :: _ => word | [] => "" end in
    (λ command,
       MkCompletion command (- Z.of_nat (String.length current_word)))
      <$> filter (λ command,
                    Str.startswith command (Str.lower current_word) = true)
                 commands
  else
    let current_word :=
      if negb (Str.endswith text " ") then default "" (last words) else "" in
    let dropped := _complete_path current_word w in
    [].

(** [Terminal._display_result] *)
Definition _display_result (r : result) : list action :=
  (if success r then
     if bool_decide (output r = "") then []
     else if bool_decide (output r = Str.escape +:+ "[2J" +:+ Str.escape +:+ "[H")
     then [System "clear"]
     else [Print (Fore.WHITE +:+ output r +:+ Style.RESET_ALL)]
   else
     if bool_decide (error r = "") then []
     else [Print (Fore.RED +:+ "Error: " +:+ error r +:+ Style.RESET_ALL)])
  ++ (if negb (bool_decide (error r = "")) && success r
      then [Print (Fore.RED +:+ "Warning: " +:+ error r +:+ Style.RESET_ALL)]
      else []).

(** The text of the prompt: the last component of the current
    directory, or all of it when that is empty. *)
Definition prompt_text_of (w : world Env) : string :=
  let base := Path.basename (current_directory w) in
  let current_dir := if bool_decide (base = "") then current_directory w else base in
  Fore.GREEN +:+ current_dir +:+ "> " +:+ Style.RESET_ALL.

Definition goodbye : string := Fore.CYAN +:+ "Goodbye!" +:+ Style.RESET_ALL.

(** [Terminal.run] on the inputs [prompt] gives one after another; when
    they are used up the loop is at its prompt. The prompt is taken to
    raise nothing but the two exceptions of [entered], and printing to
    raise nothing. *)
Fixpoint run (inputs : list entered) (w : world Env)
  : list action * status * world Env :=
  match inputs with
  | [] => ([Prompt (prompt_text_of w)], Waiting, w)
  | input :: rest =>
      let asked := Prompt (prompt_text_of w) in
      match input with
      | KeyboardInterrupt =>
          let '(actions, st, w') := run rest w in
          (asked
             :: Print (Str.newline +:+ Fore.CYAN
                       +:+ "Use 'exit' or 'quit' to leave the terminal"
                       +:+ Style.RESET_ALL)
             :: actions, st, w')
      | EOFError => ([asked; Print (Str.newline +:+ goodbye)], Returned, w)
      | Line user_input =>
          if bool_decide (Str.strip user_input = "")
          then let '(actions, st, w') := run rest w in (asked :: actions, st, w')
          else
            match execute_command (Str.strip user_input) w with
            | (inl e, w') =>
                ([asked;
                  Print (Fore.RED +:+ "Fatal error: " +:+ str_exn e
                         +:+ Style.RESET_ALL)],
                 Exited 1, w')
            | (inr r, w') =>
                if bool_decide (output r = "exit")
                then ([asked; Print goodbye], Returned, w')
                else
                  let '(actions, st, w'') := run rest w' in
                  (asked :: (_display_result r ++ actions)%list, st, w'')
            end
      end
  end.

(** [Terminal.execute_command_directly] *)
Definition execute_command_directly (command : string) : M Env result :=
  execute_command command.

End Terminal.

(** ** The handler without dependencies: [command_handler_standalone.py]

    Its methods are those of [command_handler.py] statement for
    statement, apart from [_show_processes], [_grep_files] and
    [_show_system_info], which it lacks; [cd] without argument drops a
    test of the platform whose two branches were the same; the text of
    [help] is its own. *)

Definition help_text_standalone : string := "
Available Commands:
==================
File Operations:
  ls, dir          - List directory contents
  pwd             - Print working directory
  cd <path>       - Change directory
  mkdir <name>    - Create directory
  rmdir <name>    - Remove empty directory
  rm <file>       - Remove file (use -r for directories, -f to force)
  touch <file>    - Create empty file
  cat <file>      - Show file content
  cp <src> <dst>  - Copy file
  mv <src> <dst>  - Move/rename file

System Commands:
  whoami          - Show current user
  date            - Show current date/time
  clear, cls      - Clear screen

Utilities:
  echo <text>     - Print text
  find <pattern>  - Find files matching pattern
  help            - Show this help
  exit, quit      - Exit terminal

Examples:
  cd ..           - Go to parent directory
  mkdir test      - Create 'test' directory
  rm -r folder    - Remove folder and contents
        ".

(** [self.supported_commands] of the standalone handler *)
Definition standalone_commands : gmap string handler :=
  list_to_map
    [ ("ls", list_directory); ("dir", list_directory);
      ("pwd", print_working_directory);
      ("cd", change_directory);
      ("mkdir", make_directory);
      ("rmdir", remove_directory);
      ("rm", remove_file); ("del", remove_file);
      ("touch", create_file);
      ("cat", show_file_content); ("type", show_file_content);
      ("clear", clear_screen); ("cls", clear_screen);
      ("help", show_help);
      ("whoami", whoami);
      ("date", show_date);
      ("echo", echo);
      ("cp", copy_file); ("copy", copy_file);
      ("mv", move_file); ("move", move_file);
      ("find", find_files);
      ("exit", exit); ("quit", exit) ].

(** The command word of a line: its first token in lower case. *)
Definition command_word (line : string) : string :=
  match _parse_command line with
  | first :: _ => Str.lower first
  | [] => ""
  end.

Section Standalone.

Context {Env : Type} `{!Host Env}.

Definition _show_help_standalone (args : list string) : M Env result :=
  mret (ok (Str.strip help_text_standalone)).

Definition call_standalone (h : handler) : list string -> M Env result :=
  match h with
  | show_help => _show_help_standalone
  | _ => call h
  end.

Definition execute_command_standalone (command_line : string) : M Env result :=
  execute_command_with (call_standalone <$> standalone_commands) command_line.

(** ** The entry point: [index.py] *)

Definition banner : list action :=
  [ Print "Python-Based Command Terminal";
    Print "Type 'help' for available commands or 'exit' to quit";
    Print (Str.repeat "-" 50) ].

(** [index] when [terminal] can be imported. *)
Definition index (inputs : list entered) (w : world Env)
  : list action * status * world Env :=
  let '(actions, st, w') := run inputs w in ((banner ++ actions)%list, st, w').

(** The loop of the fall-back [index]: the standalone handler, no
    colours, no warnings. An exception would leave the loop uncaught
    and end the process with status 1. *)
Fixpoint fallback_loop (inputs : list entered) (w : world Env)
  : list action * status * world Env :=
  let current_dir :=
    if bool_decide (Path.basename (current_directory w) = "")
    then current_directory w else Path.basename (current_directory w) in
  let asked := Prompt (current_dir +:+ "> ") in
  match inputs with
  | [] => ([asked], Waiting, w)
  | input :: rest =>
      match input with
      | KeyboardInterrupt =>
          let '(actions, st, w') := fallback_loop rest w in
          (asked
             :: Print (Str.newline
                       +:+ "Use 'exit' or 'quit' to leave the terminal")
             :: actions, st, w')
      | EOFError => ([asked; Print (Str.newline +:+ "Goodbye!")], Returned, w)
      | Line command =>
          if bool_decide (Str.strip command = "")
          then
            let '(actions, st, w') := fallback_loop rest w in
            (asked :: actions, st, w')
          else
            match execute_command_standalone (Str.strip command) w with
            | (inl e, w') => ([asked], Exited 1, w')
            | (inr r, w') =>
                if bool_decide (output r = "exit")
                then ([asked; Print "Goodbye!"], Returned, w')
                else
                  let shown :=
                    if success r then
                      if bool_decide (output r = "") then []
                      else if bool_decide
                                (output r
                                 = Str.escape +:+ "[2J" +:+ Str.escape +:+ "[H")
                      then [System "clear"]
                      else [Print (output r)]
                    else
                      if bool_decide (error r = "") then []
                      else [Print ("Error: " +:+ error r)] in
                  let '(actions, st, w'') := fallback_loop rest w' in
                  (asked :: (shown ++ actions)%list, st, w'')
            end
      end
  end.

(** [index] when the import fails. *)
Definition index_fallback (inputs : list entered) (w : world Env)
  : list action * status * world Env :=
  let '(actions, st, w') := fallback_loop inputs w in
  ((banner ++ actions)%list, st, w').

End Standalone.

(** * Properties *)

(** ** The embedding on concrete inputs *)

Example split_sample :
  Str.split "  ls   -l  /tmp " = ["ls"; "-l"; "/tmp"].
Proof. reflexivity. Qed.

Example strip_sample : Str.strip "  cd  x  " = "cd  x".
Proof. reflexivity. Qed.

Example lower_sample : Str.lower "EcHo" = "echo".
Proof. reflexivity. Qed.

Example join_sample : Str.join ", " ["a"; "b"; "c"] = "a, b, c".
Proof. reflexivity. Qed.

Example path_join_sample :
  Path.join "/home/u" "d" = "/home/u/d" ∧ Path.join "/home/u/" "d" = "/home/u/d"
  ∧ Path.join "/home/u" "/tmp" = "/tmp".
Proof. repeat split. Qed.

Example path_split_sample :
  Path.split "/a/b/c" = ("/a/b", "c") ∧ Path.split "/a" = ("/", "a")
  ∧ Path.split "a//" = ("a", "").
Proof. repeat split. Qed.

Example normpath_sample :
  Path.normpath "/a/b/../../../c//d/./" = "/c/d"
  ∧ Path.normpath "//a/.." = "//" ∧ Path.normpath "a/../.." = "..".
Proof. repeat split. Qed.

Example ls_sample :
  (execute_command "ls" sample_world).1
  = inr (Result true ("[DIR]  d" +:+ Str.newline +:+ "[DIR]  e") "").
Proof. vm_compute. reflexivity. Qed.

Example ls_file_sample :
  (execute_command "dir d" sample_world).1
  = inr (Result true "[FILE] f (11 bytes)" "").
Proof. vm_compute. reflexivity. Qed.

Example grep_sample :
  (execute_command "grep WOR d/f" sample_world).1
  = inr (Result true "/home/u/d/f:2:world" "").
Proof. vm_compute. reflexivity. Qed.

Example mkdir_cd_pwd_sample :
  (execute_command "pwd" (session ["mkdir d2"; "cd d2"] sample_world)).1
  = inr (Result true "/home/u/d2" "").
Proof. vm_compute. reflexivity. Qed.

Example rm_recursive_sample :
  let w := session ["rm -r d"] sample_world in
  (execute_command "ls" w).1 = inr (Result true "[DIR]  e" "").
Proof. vm_compute. reflexivity. Qed.

(** ** Running the monad *)

Section Run.

Context {Env : Type}.

Lemma run_bind {A B : Type} (m : M Env A) (f : A -> M Env B) w :
  (m ≫= f) w =
    match m w with
    | (inl e, w') => (inl e, w')
    | (inr a, w') => f a w'
    end.
Proof. reflexivity. Qed.

Lemma run_ret {A : Type} (a : A) (w : world Env) :
  (mret a : M Env A) w = (inr a, w).
Proof. reflexivity. Qed.

Lemma run_observe {A : Type} (f : world Env -> exn + A) w :
  observe f w = (f w, w).
Proof. reflexivity. Qed.

Lemma run_try {A : Type} (body : M Env A) handler w :
  try_except body handler w =
    match body w with
    | (inl e, w') => handler e w'
    | (inr a, w') => (inr a, w')
    end.
Proof. reflexivity. Qed.

End Run.

(** ** Frame rules: what a composite leaves alone, its parts leave alone *)

Section Frame.

Context {Env : Type} (R : relation (world Env)) `{!PreOrder R}.

Lemma respects_ret {A : Type} (a : A) : respects R (mret a : M Env A).
Proof. intros w. reflexivity. Qed.

Lemma respects_raise {A : Type} e : respects R (raise e : M Env A).
Proof. intros w. reflexivity. Qed.

Lemma respects_get : respects R (get : M Env (world Env)).
Proof. intros w. reflexivity. Qed.

Lemma respects_observe {A : Type} (f : world Env -> exn + A) :
  respects R (observe f).
Proof. intros w. reflexivity. Qed.

Lemma respects_bind {A B : Type} (m : M Env A) (f : A -> M Env B) :
  respects R m → (∀ a, respects R (f a)) → respects R (m ≫= f).
Proof.
  intros Hm Hf w. rewrite run_bind.
  specialize (Hm w). destruct (m w) as [[e|a] w']; simpl in *; [done|].
  etrans; [exact Hm|]. apply Hf.
Qed.

Lemma respects_try {A : Type} (body : M Env A) handler :
  respects R body → (∀ e, respects R (handler e)) →
  respects R (try_except body handler).
Proof.
  intros Hm Hh w. rewrite run_try.
  specialize (Hm w). destruct (body w) as [[e|a] w']; simpl in *; [|done].
  etrans; [exact Hm|]. apply Hh.
Qed.

End Frame.

Global Instance same_directory_preorder {Env : Type} :
  PreOrder (@same_directory Env).
Proof.
  split; [intros w; reflexivity|].
  intros w1 w2 w3 H12 H23. unfold same_directory in *. congruence.
Qed.

Global Instance grows_preorder {Env : Type} : PreOrder (@grows Env).
Proof.
  split; [intros w; split; [reflexivity|auto]|].
  intros w1 w2 w3 [H12 D12] [H23 D23]. split; [congruence|auto].
Qed.

Create HintDb frame discriminated.

#[export] Hint Resolve respects_ret respects_raise respects_get
  respects_observe : frame.

(** One step through a composite. *)
Ltac frame_step :=
  match goal with
  | |- respects ?R (mbind _ _) => apply (respects_bind R); [|intros ?]
  | |- respects ?R (try_except _ _) => apply (respects_try R); [|intros ?]
  | |- respects _ (match ?x with _ => _ end) => destruct x
  | |- respects _ (let (_, _) := ?x in _) => destruct x
  | |- respects _ _ => solve [eauto with frame typeclass_instances]
  end.

Ltac frame := repeat frame_step.

Create HintDb primitives discriminated.

#[export] Hint Unfold os_path_exists os_path_isdir os_path_isfile os_getcwd
  os_path_abspath os_listdir os_path_getsize open_read open_text os_walk
  samefile
  destinsrc _resolve_path report list_entry : primitives.

Ltac frame ::= repeat (try autounfold with primitives; frame_step).

(** ** The handlers that only read, and those that only add *)

Section Quiet.

Context {Env : Type} `{!Host Env}.
Context (R : relation (world Env)) `{!PreOrder R}.

Hypothesis os_makedirs_respects : ∀ name, respects R (os_makedirs name).
Hypothesis Path_touch_respects : ∀ path, respects R (Path_touch path).
Hypothesis shutil_copy2_respects : ∀ src dst, respects R (shutil_copy2 src dst).
Hypothesis shutil_copytree_respects :
  ∀ src dst, respects R (shutil_copytree src dst).

Local Hint Resolve os_makedirs_respects Path_touch_respects
  shutil_copy2_respects shutil_copytree_respects : frame.

Lemma list_entries_respects path entries :
  respects R (list_entries path entries).
Proof. induction entries as [|entry rest IH]; simpl; frame. Qed.

Local Hint Resolve list_entries_respects : frame.

Lemma _list_directory_respects args : respects R (_list_directory args).
Proof. unfold _list_directory. frame. Qed.

Lemma _print_working_directory_respects args :
  respects R (_print_working_directory args).
Proof. unfold _print_working_directory. frame. Qed.

Lemma make_directories_respects args : respects R (make_directories args).
Proof. induction args as [|dirname rest IH]; simpl; frame. Qed.

Local Hint Resolve make_directories_respects : frame.

Lemma _make_directory_respects args : respects R (_make_directory args).
Proof. unfold _make_directory. frame. Qed.

Lemma create_files_respects args : respects R (create_files args).
Proof. induction args as [|filename rest IH]; simpl; frame. Qed.

Local Hint Resolve create_files_respects : frame.

Lemma _create_file_respects args : respects R (_create_file args).
Proof. unfold _create_file. frame. Qed.

Lemma _show_file_content_respects args :
  respects R (_show_file_content args).
Proof. unfold _show_file_content. frame. Qed.

Lemma _show_processes_respects args : respects R (_show_processes args).
Proof. unfold _show_processes. frame. Qed.

Lemma _whoami_respects args : respects R (_whoami args).
Proof. unfold _whoami. frame. Qed.

Lemma _show_date_respects args : respects R (_show_date args).
Proof. unfold _show_date. frame. Qed.

Lemma _copy_file_respects args : respects R (_copy_file args).
Proof. unfold _copy_file. frame. Qed.

Lemma _find_files_respects args : respects R (_find_files args).
Proof. unfold _find_files. frame. Qed.

Lemma grep_file_list_respects pattern file_list :
  respects R (grep_file_list pattern file_list).
Proof. induction file_list as [|filepath rest IH]; simpl; frame. Qed.

Local Hint Resolve grep_file_list_respects : frame.

Lemma grep_patterns_respects pattern files :
  respects R (grep_patterns pattern files).
Proof. induction files as [|file_pattern rest IH]; simpl; frame. Qed.

Local Hint Resolve grep_patterns_respects : frame.

Lemma _grep_files_respects args : respects R (_grep_files args).
Proof. unfold _grep_files. frame. Qed.

Lemma _show_system_info_respects args :
  respects R (_show_system_info args).
Proof. unfold _show_system_info. frame. Qed.

(** Every handler but the four that change a directory attribute or
    remove entries. *)
Lemma quiet_handler_respects h args :
  h ≠ change_directory → removes_entries h = false →
  respects R (call h args).
Proof.
  intros Hcd Hrm.
  destruct h; simpl in *; try done;
    eauto using _list_directory_respects, _print_working_directory_respects,
      _make_directory_respects, _create_file_respects,
      _show_file_content_respects, _show_processes_respects,
      _whoami_respects, _show_date_respects, _copy_file_respects,
      _find_files_respects, _grep_files_respects,
      _show_system_info_respects;
    apply respects_ret; assumption.
Qed.

End Quiet.

(** ** Only [set_current_directory] touches the attribute *)

Section SameDirectory.

Context {Env : Type} `{!Host Env}.

Lemma set_fs_same files : respects (@same_directory Env) (set_fs files).
Proof. intros w. reflexivity. Qed.

Lemma set_cwd_same k : respects (@same_directory Env) (set_cwd k).
Proof. intros w. reflexivity. Qed.

Local Hint Resolve set_fs_same set_cwd_same : frame.

Lemma os_chdir_same path : respects (@same_directory Env) (os_chdir path).
Proof. unfold os_chdir. frame. Qed.

Lemma os_mkdir_same path : respects (@same_directory Env) (os_mkdir path).
Proof. unfold os_mkdir. frame. Qed.

Lemma os_rmdir_same path : respects (@same_directory Env) (os_rmdir path).
Proof. unfold os_rmdir. frame. Qed.

Lemma os_remove_same path : respects (@same_directory Env) (os_remove path).
Proof. unfold os_remove. frame. Qed.

Local Hint Resolve os_chdir_same os_mkdir_same os_rmdir_same
  os_remove_same : frame.

Lemma shutil_rmtree_same path :
  respects (@same_directory Env) (shutil_rmtree path).
Proof. unfold shutil_rmtree. frame. Qed.

Lemma makedirs_same fuel name :
  respects (@same_directory Env) (makedirs fuel name).
Proof.
  revert name. induction fuel as [|fuel IH]; intros name; simpl; frame.
Qed.

Lemma os_makedirs_same name :
  respects (@same_directory Env) (os_makedirs name).
Proof. apply makedirs_same. Qed.

Lemma Path_touch_same path :
  respects (@same_directory Env) (Path_touch path).
Proof. unfold Path_touch. frame. Qed.

Lemma shutil_copy2_same src dst :
  respects (@same_directory Env) (shutil_copy2 src dst).
Proof. unfold shutil_copy2. frame. Qed.

Local Hint Resolve shutil_rmtree_same os_makedirs_same Path_touch_same
  shutil_copy2_same : frame.

Lemma shutil_copytree_same src dst :
  respects (@same_directory Env) (shutil_copytree src dst).
Proof. unfold shutil_copytree. frame. Qed.

Lemma os_rename_same src dst :
  respects (@same_directory Env) (os_rename src dst).
Proof. unfold os_rename. frame. Qed.

Local Hint Resolve shutil_copytree_same os_rename_same : frame.

Lemma shutil_move_same src dst :
  respects (@same_directory Env) (shutil_move src dst).
Proof. unfold shutil_move. frame. Qed.

Local Hint Resolve shutil_move_same : frame.

Lemma remove_directories_same args :
  respects (@same_directory Env) (remove_directories args).
Proof. induction args as [|dirname rest IH]; simpl; frame. Qed.

Lemma remove_files_same recursive force files removed_items :
  respects (@same_directory Env)
    (remove_files recursive force files removed_items).
Proof.
  revert removed_items.
  induction files as [|filename rest IH]; intros removed_items; simpl; frame.
Qed.

Local Hint Resolve remove_directories_same remove_files_same : frame.

Lemma _remove_directory_same args :
  respects (@same_directory Env) (_remove_directory args).
Proof. unfold _remove_directory. frame. Qed.

Lemma _remove_file_same args :
  respects (@same_directory Env) (_remove_file args).
Proof. unfold _remove_file. frame. Qed.

Lemma _move_file_same args :
  respects (@same_directory Env) (_move_file args).
Proof. unfold _move_file. frame. Qed.

Lemma _execute_system_command_same command_line :
  respects (@same_directory Env) (_execute_system_command command_line).
Proof.
  intros w. unfold _execute_system_command.
  destruct (subprocess_run _ _ _ _) as [[[rc out err| |e] files] env'];
    reflexivity.
Qed.

Lemma handler_same h args :
  h ≠ change_directory → respects (@same_directory Env) (call h args).
Proof.
  intros Hcd.
  destruct (removes_entries h) eqn:Hrm.
  - destruct h; try discriminate; simpl;
      auto using _remove_directory_same, _remove_file_same, _move_file_same.
  - apply quiet_handler_respects;
      auto using os_makedirs_same, Path_touch_same, shutil_copy2_same,
        shutil_copytree_same.
    apply _.
Qed.

End SameDirectory.

(** ** Strings: blank lines and tokens *)

Section Strings.

(** A line of whitespace only. *)
Lemma lstrip_blank s : Forall (λ c, Str.isspace c = true) (list_ascii_of_string s) →
  Str.lstrip s = "".
Proof.
  induction s as [|c s IH]; simpl; [done|].
  intros Hall. apply Forall_cons in Hall as [Hc Hs].
  rewrite Hc. auto.
Qed.

Lemma strip_blank s : Forall (λ c, Str.isspace c = true) (list_ascii_of_string s) →
  Str.strip s = "".
Proof. intros Hall. unfold Str.strip. by rewrite lstrip_blank. Qed.

Lemma split_tokens s : Forall token (Str.split s).
Proof.
  induction s as [|c s IH]; simpl; [constructor|].
  destruct (Str.isspace c) eqn:Hc; [done|].
  assert (token (String c "")) as Hone by (split; [done|simpl; done]).
  destruct s as [|c' s']; [by constructor|].
  destruct (Str.isspace c') eqn:Hc'; [by constructor|].
  destruct (Str.split (String c' s')) as [|w ws]; [by constructor|].
  apply Forall_cons in IH as [[Hw Hfree] Hws].
  constructor; [|done]. split; [done|simpl; done].
Qed.

Lemma rstrip_token t : token t → Str.rstrip t = t.
Proof.
  intros [Hne Hfree]. induction t as [|c t IH]; [done|].
  simpl in Hfree. destruct Hfree as [Hc Hfree]. simpl.
  destruct t as [|c' t']; [simpl; by rewrite Hc|].
  rewrite IH; done.
Qed.

Lemma rstrip_app a b : Str.rstrip b ≠ "" →
  Str.rstrip (a +:+ b) = a +:+ Str.rstrip b.
Proof.
  intros Hb. induction a as [|c a IH]; [done|].
  change (String c a +:+ b) with (String c (a +:+ b)).
  change (String c a +:+ Str.rstrip b) with (String c (a +:+ Str.rstrip b)).
  simpl. rewrite IH. destruct (a +:+ Str.rstrip b) eqn:Hab; [|done].
  destruct a; simpl in Hab; [done|discriminate].
Qed.

Lemma join_nonempty sep p ps : p ≠ "" → Str.join sep (p :: ps) ≠ "".
Proof.
  intros Hp. destruct ps as [|q ps]; simpl; [done|].
  destruct p; [done|discriminate].
Qed.

(** Tokens joined by single spaces end in no whitespace. *)
Lemma rstrip_join_tokens args : Forall token args →
  Str.rstrip (Str.join " " args) = Str.join " " args.
Proof.
  induction args as [|p ps IH]; [done|].
  intros Hall. apply Forall_cons in Hall as [Hp Hps].
  destruct ps as [|q ps]; [by apply rstrip_token|].
  specialize (IH Hps).
  assert (Str.join " " (q :: ps) ≠ "") as Hne.
  { apply join_nonempty. apply Forall_cons in Hps as [[Hq _] _]. done. }
  change (Str.join " " (p :: q :: ps))
    with (p +:+ (" " +:+ Str.join " " (q :: ps))).
  assert (Str.rstrip (" " +:+ Str.join " " (q :: ps))
          = " " +:+ Str.join " " (q :: ps)) as Hsp.
  { rewrite rstrip_app; [by rewrite IH|by rewrite IH]. }
  rewrite rstrip_app; rewrite Hsp; [done|discriminate].
Qed.

Lemma lstrip_head s :
  Str.lstrip s = "" ∨ ∃ c s', Str.lstrip s = String c s' ∧ Str.isspace c = false.
Proof.
  induction s as [|c s IH]; simpl; [by left|].
  destruct (Str.isspace c) eqn:Hc; [done|]. right. eauto.
Qed.

Lemma rstrip_head c s :
  Str.isspace c = false → ∃ s', Str.rstrip (String c s) = String c s'.
Proof. intros Hc. simpl. rewrite Hc. destruct (Str.rstrip s); eauto. Qed.

Lemma split_head c s : Str.isspace c = false → Str.split (String c s) ≠ [].
Proof.
  intros Hc. simpl. rewrite Hc. destruct s as [|c' s']; [done|].
  destruct (Str.isspace c'); [done|]. by destruct (Str.split _).
Qed.

(** A line that is not blank has a first token. *)
Lemma split_strip s : Str.strip s ≠ "" → Str.split (Str.strip s) ≠ [].
Proof.
  unfold Str.strip. destruct (lstrip_head s) as [->|(c & s' & -> & Hc)]; [done|].
  destruct (rstrip_head c s' Hc) as [r ->]. intros _. by apply split_head.
Qed.

Lemma contains_app s t p :
  Str.contains t p = true → Str.contains (s +:+ t) p = true.
Proof.
  intros Ht. induction s as [|c s IH]; simpl; [done|].
  rewrite IH. apply orb_true_r.
Qed.

End Strings.

(** ** The dispatcher *)

Section Dispatch.

Context {Env : Type} `{!Host Env}.

Implicit Types (table : gmap string (list string -> M Env result)).

Lemma parse_not_blank command_line first args :
  _parse_command command_line = first :: args → Str.strip command_line ≠ "".
Proof. unfold _parse_command. intros Hparse Hblank. by rewrite Hblank in Hparse. Qed.

(** The first token of a line exists unless the line is blank: the
    [IndexError] of [parts[0]] is never raised. *)
Lemma parse_blank_iff command_line :
  _parse_command command_line = [] ↔ Str.strip command_line = "".
Proof.
  unfold _parse_command. split; [|by intros ->].
  intros Hparse. destruct (decide (Str.strip command_line = "")) as [|Hne];
    [done|]. by apply split_strip in Hne.
Qed.

Lemma execute_dispatch table command_line first args :
  _parse_command command_line = first :: args →
  execute_command_with table command_line =
    try_except
      (match table !! Str.lower first with
       | Some method => method args
       | None => _execute_system_command command_line
       end)
      (λ e, mret (Result false "" ("Error executing command: " +:+ str_exn e))).
Proof.
  intros Hparse. unfold execute_command_with.
  rewrite bool_decide_eq_false_2 by (by eapply parse_not_blank).
  by rewrite Hparse.
Qed.

Lemma lookup_supported name :
  (call <$> supported_commands) !! name
  = (call : handler -> list string -> M Env result) <$> supported_commands !! name.
Proof. apply lookup_fmap. Qed.

End Dispatch.

(** ** The dispatch boundary *)

Section Boundary.

Context {Env : Type} `{!Host Env}.

(** C2. [execute_command] returns a result record for every line and
    every table of handlers ([supported_commands] is one), never an
    exception; and when the handler a line is dispatched to raises [e],
    the record is
    [{success: false, output: "", error: "Error executing command: " + str(e)}]. *)
Theorem execute_command_total
    (table : gmap string (list string -> M Env result))
    (command_line : string) (w : world Env) :
  (∃ r, (execute_command_with table command_line w).1 = inr r)
  ∧ ∀ first args (method : list string -> M Env result) e w',
      _parse_command command_line = first :: args →
      table !! Str.lower first = Some method →
      method args w = (inl e, w') →
      execute_command_with table command_line w
      = (inr (Result false "" ("Error executing command: " +:+ str_exn e)), w').
Proof.
  split.
  - unfold execute_command_with. rewrite run_try.
    match goal with |- context [match ?b w with _ => _ end] =>
      destruct (b w) as [[e|r] w'] end; simpl; eauto.
  - intros first args method e w' Hparse Hlookup Hraise.
    rewrite (execute_dispatch _ _ _ _ Hparse), run_try, Hlookup, Hraise.
    reflexivity.
Qed.

(** C5. A line that is empty or made of whitespace only returns
    [{success: true, output: "", error: ""}] and leaves the world as it
    was, whatever the table of handlers and the host are: nothing is
    dispatched. *)
Theorem blank_line_is_noop
    (table : gmap string (list string -> M Env result))
    (command_line : string) (w : world Env) :
  Forall (λ c, Str.isspace c = true) (list_ascii_of_string command_line) →
  execute_command_with table command_line w = (inr (Result true "" ""), w).
Proof.
  intros Hblank. unfold execute_command_with.
  rewrite run_try, bool_decide_eq_true_2 by (by apply strip_blank).
  reflexivity.
Qed.

(** C7. Every built-in handler other than [_change_directory], and the
    runner of external processes, leaves [current_directory] as it
    was. *)
Theorem only_cd_moves_current_directory
    (h : handler) (args : list string) (command_line : string)
    (w : world Env) :
  h ≠ change_directory →
  current_directory (call h args w).2 = current_directory w
  ∧ current_directory (_execute_system_command command_line w).2
    = current_directory w.
Proof.
  intros Hcd. split.
  - by apply handler_same.
  - apply _execute_system_command_same.
Qed.

(** C8. A line whose first token, in lower case, is not in the table
    of commands is given whole to the external runner, and the result
    has [success = true] exactly when the process ended with exit
    code 0. *)
Theorem unknown_command_goes_to_host
    (command_line first : string) (args : list string) (w : world Env) :
  _parse_command command_line = first :: args →
  supported_commands !! Str.lower first = None →
  execute_command command_line w = _execute_system_command command_line w
  ∧ ∃ r w',
      execute_command command_line w = (inr r, w')
      ∧ (success r = true ↔
         ∃ out err files env',
           subprocess_run command_line (current_directory w) (fs w) (env w)
           = (CompletedProcess 0 out err, files, env')).
Proof.
  intros Hparse Hnone.
  assert (execute_command command_line w
          = _execute_system_command command_line w) as Hrun.
  { unfold execute_command.
    rewrite (execute_dispatch _ _ _ _ Hparse), run_try, lookup_supported, Hnone.
    simpl. unfold _execute_system_command.
    by destruct (subprocess_run _ _ _ _) as [[[rc out err| |e] files] env']. }
  split; [done|]. rewrite Hrun. unfold _execute_system_command.
  destruct (subprocess_run _ _ _ _) as [[[rc out err| |e] files] env'];
    eexists _, _; (split; [reflexivity|]); simpl.
  - split.
    + intros Hrc. apply Z.eqb_eq in Hrc. subst rc. eauto.
    + intros (out' & err' & files' & env'' & Heq). by simplify_eq.
  - split; [done|]. intros (? & ? & ? & ? & ?). done.
  - split; [done|]. intros (? & ? & ? & ? & ?). done.
Qed.

(** C9. [echo] returns success with its arguments joined by single
    spaces, with no whitespace at the end; the arguments are the
    whitespace-separated pieces of the line after the command word, so
    [echo] with the arguments [a] and [b] gives exactly [a b]. *)
Theorem echo_joins_tokens
    (command_line first : string) (args : list string) (w : world Env) :
  _parse_command command_line = first :: args →
  Str.lower first = "echo" →
  execute_command command_line w
  = (inr (Result true (Str.join " " args) ""), w)
  ∧ Str.rstrip (Str.join " " args) = Str.join " " args.
Proof.
  intros Hparse Hecho. split.
  - unfold execute_command.
    rewrite (execute_dispatch _ _ _ _ Hparse), run_try, lookup_supported, Hecho.
    reflexivity.
  - apply rstrip_join_tokens.
    pose proof (split_tokens (Str.strip command_line)) as Htok.
    unfold _parse_command in Hparse. rewrite Hparse in Htok.
    by apply Forall_cons in Htok as [_ ?].
Qed.

End Boundary.

Lemma execute_command_total_witness :
  execute_command_with faulty_table "boom now" sample_world
  = (inr (Result false "" "Error executing command: boom failed"), sample_world).
Proof.
  apply (proj2 (execute_command_total faulty_table "boom now" sample_world)
           "boom" ["now"] (λ _, raise (OtherException "boom failed"))
           (OtherException "boom failed") sample_world);
    reflexivity.
Defined.

Lemma blank_line_is_noop_witness :
  Forall (λ c, Str.isspace c = true) (list_ascii_of_string "   ")
  ∧ execute_command_with (call <$> supported_commands) "   " sample_world
    = (inr (Result true "" ""), sample_world).
Proof.
  assert (Forall (λ c, Str.isspace c = true) (list_ascii_of_string "   "))
    as Hblank by (repeat constructor).
  split; [exact Hblank|].
  exact (blank_line_is_noop (call <$> supported_commands) "   " sample_world Hblank).
Defined.

Lemma only_cd_moves_current_directory_witness :
  remove_file ≠ change_directory
  ∧ current_directory (call remove_file ["-r"; "d"] sample_world).2
    = current_directory sample_world
  ∧ current_directory (_execute_system_command "make all" sample_world).2
    = current_directory sample_world.
Proof.
  split; [discriminate|].
  apply (only_cd_moves_current_directory remove_file ["-r"; "d"] "make all"
           sample_world).
  discriminate.
Defined.

Lemma unknown_command_goes_to_host_witness :
  execute_command "zzzznotacommand -x" sample_world
  = _execute_system_command "zzzznotacommand -x" sample_world
  ∧ ∃ r w',
      execute_command "zzzznotacommand -x" sample_world = (inr r, w')
      ∧ (success r = true ↔
         ∃ out err files env',
           subprocess_run "zzzznotacommand -x"
             (current_directory sample_world) (fs sample_world)
             (env sample_world)
           = (CompletedProcess 0 out err, files, env')).
Proof.
  apply (unknown_command_goes_to_host "zzzznotacommand -x" "zzzznotacommand"
           ["-x"] sample_world); reflexivity.
Defined.

Lemma echo_joins_tokens_witness :
  execute_command "echo a b" sample_world
  = (inr (Result true "a b" ""), sample_world)
  ∧ Str.rstrip "a b" = "a b".
Proof.
  apply (echo_joins_tokens "echo a b" "echo" ["a"; "b"] sample_world);
    reflexivity.
Defined.

(** ** Stepping through a handler *)

Section Stepping.

Context {Env : Type} `{!Host Env}.

Implicit Types (w : world Env).

Lemma run_get w : get w = (inr w, w).
Proof. reflexivity. Qed.

Lemma _resolve_path_run path w :
  _resolve_path path w = (inr (resolved path w), w).
Proof. unfold _resolve_path, resolved. by destruct (Path.isabs path). Qed.

Lemma os_path_exists_run path w :
  os_path_exists path w = (inr (Fs.exists_ (fs w) (cwd w) path), w).
Proof. reflexivity. Qed.

Lemma os_path_isdir_run path w :
  os_path_isdir path w = (inr (Fs.isdir (fs w) (cwd w) path), w).
Proof. reflexivity. Qed.

Lemma os_listdir_run path w :
  os_listdir path w =
    (match Fs.stat (fs w) (cwd w) path with
     | inl e => inl (lookup_exn e path)
     | inr (_, File _) => inl (NotADirectoryError path)
     | inr (k, Dir) => inr (Fs.children (fs w) k)
     end, w).
Proof. reflexivity. Qed.

Lemma set_current_directory_run d w :
  set_current_directory d w = (inr tt, World d (cwd w) (fs w) (env w)).
Proof. reflexivity. Qed.

Lemma isdir_exists files c p :
  Fs.isdir files c p = true → Fs.exists_ files c p = true.
Proof.
  unfold Fs.isdir, Fs.exists_. by destruct (Fs.stat files c p) as [|[? []]].
Qed.

Lemma stat_isdir files c p k :
  Fs.stat files c p = inr (k, Dir) → Fs.isdir files c p = true.
Proof. unfold Fs.isdir. by intros ->. Qed.

(** An absolute path names the same entry from every directory. *)
Lemma stat_absolute files c c' p :
  Path.isabs p = true → Fs.stat files c p = Fs.stat files c' p.
Proof. intros Habs. unfold Fs.stat, Fs.resolve. by rewrite Habs. Qed.

Lemma isdir_absolute files c c' p :
  Path.isabs p = true → Fs.isdir files c p = Fs.isdir files c' p.
Proof. intros Habs. unfold Fs.isdir. by rewrite (stat_absolute _ c c'). Qed.

Lemma resolved_absolute path w : Path.isabs path = true → resolved path w = path.
Proof. unfold resolved. by intros ->. Qed.

End Stepping.

Create Rewrite HintDb run.

#[export] Hint Rewrite @run_bind @run_ret @run_observe @run_try @run_get
  @_resolve_path_run @os_path_exists_run @os_path_isdir_run @os_listdir_run
  @set_current_directory_run : run.

Ltac run := repeat (autorewrite with run; cbv beta iota delta [negb]).

(** ** The recursion of [os.makedirs] *)

Section Fuel.

Context {Env : Type}.

Implicit Types (w : world Env).

Lemma cut_last_sep_length p :
  String.length (Path.cut_last_sep p).1 + String.length (Path.cut_last_sep p).2
  = String.length p.
Proof.
  induction p as [|c p IH]; simpl; [done|].
  destruct (Path.cut_last_sep p) as [h t]. simpl in *.
  destruct (bool_decide (h = "")) eqn:Hh.
  - apply bool_decide_eq_true in Hh. subst h. simpl in IH.
    destruct (Ascii.eqb c Path.sep); simpl; lia.
  - simpl. lia.
Qed.

Lemma rstrip_char_length x s :
  (String.length (Str.rstrip_char x s) ≤ String.length s)%nat.
Proof.
  induction s as [|c s IH]; simpl; [done|].
  destruct (Str.rstrip_char x s); [destruct (Ascii.eqb c x)|]; simpl in *; lia.
Qed.

Lemma split_length p :
  (String.length (Path.split p).1 + String.length (Path.split p).2
   ≤ String.length p)%nat.
Proof.
  unfold Path.split. pose proof (cut_last_sep_length p) as Hcut.
  destruct (Path.cut_last_sep p) as [h t]. simpl in *.
  pose proof (rstrip_char_length Path.sep h).
  destruct (bool_decide _); simpl; lia.
Qed.

Lemma os_mkdir_raises path w e w' :
  os_mkdir path w = (inl e, w') → ∀ msg, e ≠ RecursionError msg.
Proof.
  unfold os_mkdir. run.
  destruct (Fs.resolve _ _ _) as [[]|k]; [by intros [= <- _]..|].
  destruct (fs w !! k); by intros [= <- _].
Qed.

(** [os.makedirs] stays within its recursion budget. *)
Lemma makedirs_fuel fuel : ∀ name w e w',
  (String.length name < fuel)%nat →
  makedirs fuel name w = (inl e, w') → ∀ msg, e ≠ RecursionError msg.
Proof.
  induction fuel as [|fuel IH]; intros name w e w' Hlen; [lia|]. simpl.
  pose proof (split_length name) as Hsplit.
  destruct (Path.split name) as [head0 tail0]. simpl in Hsplit.
  pose proof (split_length head0) as Hsplit0.
  assert (∃ head tail,
            (if bool_decide (tail0 = "") then Path.split head0 else (head0, tail0))
            = (head, tail)
            ∧ (String.length head + String.length tail ≤ String.length name)%nat)
    as (head & tail & -> & Hparts).
  { destruct (bool_decide (tail0 = "")).
    - destruct (Path.split head0) as [h t]. simpl in *. exists h, t.
      split; [done|lia].
    - exists head0, tail0. split; [done|lia]. }
  run.
  destruct (_ && _) eqn:Hcond; [|apply os_mkdir_raises].
  apply andb_true_iff in Hcond as [Hcond _].
  apply andb_true_iff in Hcond as [_ Htail].
  apply negb_true_iff, bool_decide_eq_false in Htail.
  assert (String.length head < fuel)%nat as Hhead
    by (destruct tail; [done|simpl in *; lia]).
  run. destruct (makedirs fuel head w) as [[e1|[]] w1] eqn:Hrec.
  - destruct e1; try (intros [= <- _]; by eapply (IH head w _ w1 Hhead Hrec)).
    run. destruct (bool_decide (tail = ".")); [done|apply os_mkdir_raises].
  - run. destruct (bool_decide (tail = ".")); [done|apply os_mkdir_raises].
Qed.

Lemma os_makedirs_fuel name w e w' :
  os_makedirs name w = (inl e, w') → ∀ msg, e ≠ RecursionError msg.
Proof. apply makedirs_fuel. lia. Qed.

End Fuel.

(** ** Path names and their components *)

Section Names.

Lemma isabs_inv p : Path.isabs p = true → ∃ p', p = String Path.sep p'.
Proof.
  destruct p as [|c p']; [done|]. unfold Path.isabs, Str.startswith. cbn -[ascii_dec].
  destruct (ascii_dec "/" c) as [<-|]; [|done]. intros _. by eexists.
Qed.

Lemma isabs_sep s : Path.isabs (String Path.sep s) = true.
Proof.
  unfold Path.isabs, Str.startswith. cbn -[ascii_dec].
  destruct (ascii_dec "/" Path.sep); [by destruct s|done].
Qed.

Lemma split_on_sep s :
  Str.split_on Path.sep (String Path.sep s) = "" :: Str.split_on Path.sep s.
Proof. reflexivity. Qed.

Lemma split_on_nonempty sep s : Str.split_on sep s ≠ [].
Proof.
  destruct s as [|c s]; simpl; [done|].
  destruct (Ascii.eqb c sep); [done|]. by destruct (Str.split_on sep s).
Qed.

Lemma split_on_slash_free s : Forall slash_free (Str.split_on Path.sep s).
Proof.
  induction s as [|c s IH]; simpl; [by repeat constructor|].
  destruct (Ascii.eqb c Path.sep) eqn:Hc; [by constructor|].
  destruct (Str.split_on Path.sep s) as [|w ws]; [by repeat constructor|].
  apply Forall_cons in IH as [Hw Hws]. by repeat constructor.
Qed.

Lemma split_on_free a : slash_free a → Str.split_on Path.sep a = [a].
Proof.
  induction a as [|c a IH]; simpl; [done|]. intros [Hc Ha].
  by rewrite Hc, IH.
Qed.

Lemma split_on_app a b :
  slash_free a →
  Str.split_on Path.sep (a +:+ "/" +:+ b) = a :: Str.split_on Path.sep b.
Proof.
  induction a as [|c a IH]; [done|]. intros [Hc Ha].
  change (String c a +:+ "/" +:+ b) with (String c (a +:+ "/" +:+ b)).
  simpl. by rewrite Hc, IH.
Qed.

Lemma split_on_join names :
  names ≠ [] → Forall slash_free names →
  Str.split_on Path.sep (Str.join "/" names) = names.
Proof.
  induction names as [|p ps IH]; [done|]. intros _ Hall.
  apply Forall_cons in Hall as [Hp Hps].
  destruct ps as [|q ps]; [by apply split_on_free|].
  change (Str.join "/" (p :: q :: ps)) with (p +:+ "/" +:+ Str.join "/" (q :: ps)).
  rewrite split_on_app by done. by rewrite IH.
Qed.

End Names.

(** ** Name resolution against [os.path.normpath] *)

Section Walk.

Context (files : gmap (list string) node).

Lemma walk_loop i comps : ∀ cur k,
  i ≠ 0 → Forall entry_name cur → Forall slash_free comps →
  Fs.walk files cur comps = inr k →
  Path.normpath_loop i cur comps = k ∧ Forall entry_name k.
Proof.
  induction comps as [|c rest IH]; intros cur k Hi Hcur Hcomps Hwalk; simpl in *.
  { by simplify_eq. }
  apply Forall_cons in Hcomps as [Hc Hrest].
  destruct (files !! cur) as [[content|]|]; try done.
  destruct (bool_decide (c = "") || bool_decide (c = ".")) eqn:Hskip.
  { by apply IH. }
  apply orb_false_iff in Hskip as [Hne Hdot].
  apply bool_decide_eq_false in Hne, Hdot.
  destruct (bool_decide (c = "..")) eqn:Hup; simpl.
  - rewrite (bool_decide_eq_false_2 (i = 0)) by done. simpl.
    rewrite bool_decide_eq_false_2.
    + apply IH; [done| |done|done]. destruct cur; [done|].
      by apply Forall_cons in Hcur as [_ ?].
    + destruct cur as [|x cur]; [done|]. simpl. intros [= ->].
      apply Forall_cons in Hcur as [[(_ & _ & Hx) _] _]. done.
  - apply bool_decide_eq_false in Hup.
    apply IH; [done| |done|done]. constructor; [|done]. by repeat split.
Qed.

Lemma walk_chain comps : ∀ cur k,
  Fs.walk files cur comps = inr k → chain files cur → chain files k.
Proof.
  induction comps as [|c rest IH]; intros cur k Hwalk Hchain; simpl in *.
  { by simplify_eq. }
  destruct (files !! cur) as [[content|]|] eqn:Hcur; try done.
  destruct (bool_decide (c = "") || bool_decide (c = ".")); [by eapply IH|].
  destruct (bool_decide (c = "..")).
  - eapply IH; [done|]. destruct cur; [done|]. by destruct Hchain.
  - eapply IH; [done|]. by split.
Qed.

Lemma chain_above l : ∀ x cur,
  chain files (l ++ x :: cur)%list → files !! cur = Some Dir.
Proof.
  induction l as [|y l IH]; intros x cur; simpl.
  - by intros [? _].
  - intros [_ ?]. by eapply IH.
Qed.

Lemma walk_names names : ∀ cur,
  Forall entry_name names → chain files (rev names ++ cur)%list →
  Fs.walk files cur names = inr (rev names ++ cur)%list.
Proof.
  induction names as [|n names IH]; intros cur Hnames Hchain; simpl; [done|].
  apply Forall_cons in Hnames as [[(Hne & Hdot & Hup) _] Hnames].
  simpl in Hchain. rewrite <- app_assoc in Hchain. simpl in Hchain.
  rewrite (chain_above _ _ _ Hchain).
  rewrite !bool_decide_eq_false_2 by done. simpl.
  rewrite <- app_assoc. simpl. by apply IH.
Qed.

End Walk.

Section Normpath.

Context (files : gmap (list string) node).

Lemma walk_root comps :
  files !! [] = Some Dir →
  Fs.walk files [] ("" :: comps) = Fs.walk files [] comps.
Proof. intros Hroot. simpl. by rewrite Hroot. Qed.

Lemma normpath_absolute p :
  Path.isabs p = true →
  ∃ i, (i = 1 ∨ i = 2)
       ∧ Path.normpath p
         = Str.repeat "/" i
           +:+ Str.join "/" (rev (Path.normpath_loop i [] (Str.split_on Path.sep p))).
Proof.
  intros Habs. destruct (isabs_inv p Habs) as [p' ->].
  unfold Path.normpath. rewrite bool_decide_eq_false_2 by done.
  unfold Path.isabs in Habs. rewrite Habs.
  destruct (Str.startswith _ "//" && _).
  - exists 2. split; [by right|]. reflexivity.
  - exists 1. split; [by left|]. reflexivity.
Qed.

Lemma stat_normpath c c' p k :
  Path.isabs p = true → Fs.stat files c p = inr (k, Dir) →
  Path.isabs (Path.normpath p) = true
  ∧ Fs.stat files c' (Path.normpath p) = inr (k, Dir).
Proof.
  intros Habs Hstat.
  destruct (normpath_absolute p Habs) as (i & Hi & ->).
  destruct (isabs_inv p Habs) as [p' ->].
  unfold Fs.stat, Fs.resolve in Hstat.
  rewrite bool_decide_eq_false_2, Habs, split_on_sep in Hstat by done.
  destruct (files !! []) as [[content|]|] eqn:Hroot;
    try (simpl in Hstat; rewrite Hroot in Hstat; done).
  rewrite walk_root in Hstat by done.
  destruct (Fs.walk files [] (Str.split_on Path.sep p')) as [e|k'] eqn:Hwalk;
    [done|].
  destruct (files !! k') as [n|] eqn:Hk'; [|done]. simplify_eq.
  rewrite split_on_sep.
  assert (Path.normpath_loop i [] ("" :: Str.split_on Path.sep p')
          = Path.normpath_loop i [] (Str.split_on Path.sep p')) as -> by done.
  destruct (walk_loop files i (Str.split_on Path.sep p') [] k) as [-> Hnames];
    [by destruct Hi; subst|done|apply split_on_slash_free|done|].
  pose proof (walk_chain files _ _ _ Hwalk I) as Hchain.
  assert (Fs.walk files [] (Str.split_on Path.sep (Str.join "/" (rev k)))
          = inr k) as Hback.
  { destruct k as [|x k] using rev_ind.
    - simpl. by rewrite Hroot.
    - rewrite split_on_join.
      + rewrite <- (app_nil_r (_ ++ [x])%list) at 2.
        rewrite <- (rev_involutive (_ ++ [x])%list) at 2.
        apply walk_names; [|by rewrite rev_involutive, app_nil_r].
        by apply Forall_rev.
      + rewrite rev_app_distr. done.
      + apply Forall_rev. eapply Forall_impl; [exact Hnames|]. by intros ? [_ ?]. }
  assert (∀ J, Fs.walk files [] (Str.split_on Path.sep J) = inr k →
          Path.isabs (Str.repeat "/" i +:+ J) = true
          ∧ Fs.stat files c' (Str.repeat "/" i +:+ J) = inr (k, Dir)) as Hfin.
  { intros J HJ. unfold Fs.stat, Fs.resolve.
    destruct Hi; subst i.
    - change (Str.repeat "/" 1 +:+ J) with (String Path.sep J).
      split; [apply isabs_sep|]. rewrite bool_decide_eq_false_2 by done.
      by rewrite isabs_sep, split_on_sep, walk_root, HJ, Hk'.
    - change (Str.repeat "/" 2 +:+ J) with (String Path.sep (String Path.sep J)).
      split; [reflexivity|]. rewrite bool_decide_eq_false_2 by done.
      change (Path.isabs (String Path.sep (String Path.sep J))) with true.
      cbv iota. by rewrite !split_on_sep, !walk_root, HJ, Hk'. }
  by apply Hfin.
Qed.

End Normpath.

(** ** Operations that only add entries *)

Section Grows.

Context {Env : Type} `{!Host Env}.

Implicit Types (w : world Env).

Lemma grows_files w files' :
  (∀ k, fs w !! k = Some Dir → files' !! k = Some Dir) →
  grows w (World (current_directory w) (cwd w) files' (env w)).
Proof. by split. Qed.

Lemma insert_keeps_directories (files : gmap (list string) node) k n :
  files !! k ≠ Some Dir →
  ∀ k', files !! k' = Some Dir → <[k := n]> files !! k' = Some Dir.
Proof.
  intros Hk k' Hk'. rewrite lookup_insert_ne; [done|]. by intros ->.
Qed.

Lemma place_keeps_directories (files : gmap (list string) node) k n k' :
  files !! k' = Some Dir → Fs.place k n files !! k' = Some Dir.
Proof.
  intros Hk'. unfold Fs.place.
  destruct (files !! k) as [[content|]|] eqn:Hk; [|done|];
    by apply insert_keeps_directories; [rewrite Hk|].
Qed.

Lemma graft_keeps_directories (files : gmap (list string) node) k tree k' :
  files !! k' = Some Dir → Fs.graft files k tree !! k' = Some Dir.
Proof.
  intros Hk'. induction tree as [|entry tree IH]; simpl; [done|].
  by apply place_keeps_directories.
Qed.

Lemma os_mkdir_grows path : respects (@grows Env) (os_mkdir path).
Proof.
  intros w. unfold os_mkdir. run.
  destruct (Fs.resolve _ _ _) as [e|k]; [reflexivity|].
  destruct (fs w !! k) eqn:Hk; [reflexivity|].
  apply grows_files, insert_keeps_directories. by rewrite Hk.
Qed.

Lemma makedirs_grows fuel name : respects (@grows Env) (makedirs fuel name).
Proof.
  revert name. induction fuel as [|fuel IH]; intros name; simpl;
    pose proof os_mkdir_grows; frame.
Qed.

Lemma os_makedirs_grows name : respects (@grows Env) (os_makedirs name).
Proof. apply makedirs_grows. Qed.

Lemma Path_touch_grows path : respects (@grows Env) (Path_touch path).
Proof.
  intros w. unfold Path_touch. run.
  destruct (Fs.exists_ _ _ _) eqn:Hex; [reflexivity|].
  unfold Fs.exists_, Fs.stat in Hex.
  destruct (Fs.resolve _ _ _) as [e|k]; [reflexivity|].
  apply grows_files, insert_keeps_directories.
  by destruct (fs w !! k).
Qed.

Lemma shutil_copy2_grows src dst : respects (@grows Env) (shutil_copy2 src dst).
Proof.
  intros w. unfold shutil_copy2, open_read. run.
  repeat (case_match; unfold mret, M_ret, raise in *; simplify_eq/=; run);
    try reflexivity;
    apply grows_files, insert_keeps_directories; congruence.
Qed.

Lemma shutil_copytree_grows src dst :
  respects (@grows Env) (shutil_copytree src dst).
Proof.
  intros w. unfold shutil_copytree. run.
  destruct (Fs.stat _ _ src) as [e|[ks [content|]]]; try reflexivity.
  run. pose proof (os_makedirs_grows dst w) as Hmade.
  destruct (os_makedirs dst w) as [[e|[]] w1]; [done|]. simpl in Hmade.
  etrans; [exact Hmade|]. run.
  destruct (Fs.resolve _ _ dst) as [e|kd]; [reflexivity|]. run.
  assert (grows w1 (set_fs (Fs.graft (fs w1) kd (Fs.subtree (fs w) ks)) w1).2)
    as Hgraft by (apply grows_files; intros k; apply graft_keeps_directories).
  destruct (set_fs _ w1) as [[e|[]] w2]; [done|].
  by destruct (_ && _).
Qed.

(** Directories that stay keep every path to a directory. *)
Lemma walk_grows (files files' : gmap (list string) node) comps : ∀ cur k,
  (∀ k, files !! k = Some Dir → files' !! k = Some Dir) →
  Fs.walk files cur comps = inr k → Fs.walk files' cur comps = inr k.
Proof.
  induction comps as [|c rest IH]; intros cur k Hkeep Hwalk; simpl in *; [done|].
  destruct (files !! cur) as [[content|]|] eqn:Hcur; try done.
  rewrite (Hkeep _ Hcur). repeat case_match; by apply IH.
Qed.

Lemma isdir_grows (files files' : gmap (list string) node) c p :
  (∀ k, files !! k = Some Dir → files' !! k = Some Dir) →
  Fs.isdir files c p = true → Fs.isdir files' c p = true.
Proof.
  intros Hkeep. unfold Fs.isdir, Fs.stat, Fs.resolve.
  destruct (bool_decide (p = "")); [done|].
  destruct (Fs.walk files _ _) as [e|k] eqn:Hwalk; [done|].
  rewrite (walk_grows _ _ _ _ _ Hkeep Hwalk).
  destruct (files !! k) as [[content|]|] eqn:Hk; try done.
  by rewrite (Hkeep _ Hk).
Qed.

Lemma directory_ok_grows w w' : directory_ok w → grows w w' → directory_ok w'.
Proof.
  intros [Habs Hdir] [Hcd Hkeep]. unfold directory_ok. rewrite Hcd.
  split; [done|]. rewrite (isdir_absolute _ _ (cwd w)) by done.
  by eapply isdir_grows.
Qed.

Lemma join_absolute a b : Path.isabs a = true → Path.isabs (Path.join a b) = true.
Proof.
  intros Ha. destruct (isabs_inv a Ha) as [a' ->]. unfold Path.join.
  destruct (Str.startswith b "/") eqn:Hb; [done|].
  destruct (_ || _); apply isabs_sep.
Qed.

Lemma resolved_is_absolute path w :
  Path.isabs (current_directory w) = true → Path.isabs (resolved path w) = true.
Proof.
  intros Hcd. unfold resolved. destruct (Path.isabs path) eqn:Hp; [done|].
  by apply join_absolute.
Qed.

End Grows.

(** ** Changing and removing directories *)

Section Directories.

Context {Env : Type} `{!Host Env}.

Implicit Types (w : world Env).

(** A path that is no directory: the handler returns early. *)
Lemma cd_not_directory (args : list string) w :
  Fs.isdir (fs w) (cwd w) (resolved (cd_argument args w) w) = false →
  (_change_directory args w).2 = w.
Proof.
  intros Hdir. unfold _change_directory. run. fold (cd_argument args w).
  destruct (Fs.exists_ _ _ _); run; [|done].
  rewrite Hdir. by run.
Qed.

(** An absolute path that names a directory: the attribute becomes its
    normal form, whether or not [os.chdir] then succeeds. *)
Lemma cd_success (args : list string) w :
  Path.isabs (resolved (cd_argument args w) w) = true →
  Fs.isdir (fs w) (cwd w) (resolved (cd_argument args w) w) = true →
  ∃ r c,
    _change_directory args w
    = (inr r, World (Path.normpath (resolved (cd_argument args w) w)) c
                (fs w) (env w)).
Proof.
  intros Habs Hdir. pose proof (isdir_exists _ _ _ Hdir) as Hex.
  unfold _change_directory. run. fold (cd_argument args w).
  rewrite Hex. run. rewrite Hdir. run.
  unfold os_path_abspath. rewrite Habs. run.
  unfold os_chdir. run. simpl.
  destruct (Fs.stat _ _ _) as [e|[k [content|]]]; simpl; eauto.
  destruct e; simpl; eauto.
Qed.

Lemma cd_keeps_directory_ok args w :
  directory_ok w → directory_ok (_change_directory args w).2.
Proof.
  intros [Habs Hok].
  pose proof (resolved_is_absolute (cd_argument args w) w Habs) as Htarget.
  destruct (Fs.isdir (fs w) (cwd w) (resolved (cd_argument args w) w)) eqn:Hdir.
  - destruct (cd_success args w Htarget Hdir) as (r & c & ->). simpl.
    unfold Fs.isdir in Hdir.
    destruct (Fs.stat _ _ _) as [e|[k [content|]]] eqn:Hstat; try done.
    destruct (stat_normpath _ _ c _ _ Htarget Hstat) as [Hnabs Hnstat].
    split; simpl; [done|]. unfold Fs.isdir. by rewrite Hnstat.
  - rewrite (cd_not_directory args w Hdir). by split.
Qed.

Lemma boundary_state (table : gmap string (list string -> M Env result))
    command_line first args (method : list string -> M Env result) w :
  _parse_command command_line = first :: args →
  table !! Str.lower first = Some method →
  (execute_command_with table command_line w).2 = (method args w).2.
Proof.
  intros Hparse Hlookup.
  rewrite (execute_dispatch _ _ _ _ Hparse), run_try, Hlookup.
  by destruct (method args w) as [[e|r] w'].
Qed.

Lemma unparsed_state (table : gmap string (list string -> M Env result))
    command_line w :
  _parse_command command_line = [] →
  (execute_command_with table command_line w).2 = w.
Proof.
  intros Hparse. unfold execute_command_with. rewrite run_try, Hparse.
  by destruct (bool_decide _).
Qed.

Lemma harmless_keeps_directory_ok command_line w :
  harmless command_line = true → directory_ok w →
  directory_ok (execute_command command_line w).2.
Proof.
  unfold harmless, execute_command. intros Hharmless Hok.
  destruct (_parse_command command_line) as [|first args] eqn:Hparse.
  { by rewrite unparsed_state. }
  destruct (supported_commands !! Str.lower first) as [h|] eqn:Hlookup; [|done].
  rewrite (boundary_state _ _ first args (call h)) by
    (by rewrite ?lookup_supported, ?Hlookup).
  destruct (decide (h = change_directory)) as [->|Hcd].
  { by apply cd_keeps_directory_ok. }
  eapply directory_ok_grows; [done|].
  apply quiet_handler_respects;
    auto using os_makedirs_grows, Path_touch_grows, shutil_copy2_grows,
      shutil_copytree_grows.
  - apply _.
  - by destruct (removes_entries h).
Qed.

(** With [-f] or [-rf] among the arguments, a first target that cannot
    be found is still given to [os.remove], whose exception ends the
    command: nothing is removed and the other targets are not looked
    at. *)
Lemma rm_force_still_raises (args rest : list string) (filename : string) w e :
  filter (λ arg, Str.startswith arg "-" = false) args = filename :: rest →
  bool_decide ("-f" ∈ args) || bool_decide ("-rf" ∈ args) = true →
  Fs.stat (fs w) (cwd w) (resolved filename w) = inl e →
  _remove_file args w
  = (inr (failure (str_exn (lookup_exn e (resolved filename w)))), w).
Proof.
  intros Hfiles Hforce Hstat.
  assert (Fs.exists_ (fs w) (cwd w) (resolved filename w) = false) as Hex
    by (unfold Fs.exists_; by rewrite Hstat).
  assert (Fs.isdir (fs w) (cwd w) (resolved filename w) = false) as Hdir
    by (unfold Fs.isdir; by rewrite Hstat).
  unfold _remove_file. run.
  destruct args as [|arg args']; [done|]. cbv zeta. rewrite Hfiles, Hforce.
  simpl remove_files. run. rewrite Hex. cbn [andb negb]. run.
  rewrite Hdir. run.
  unfold os_remove. run. rewrite Hstat. unfold raise. run.
  reflexivity.
Qed.
(** C1, amended. From the engine's initial state, in every session of
    lines that are blank or run a built-in command other than [rmdir],
    [rm]/[del] and [mv]/[move], [current_directory] is an absolute path
    that names an existing directory at every point (on a file system
    without symbolic links, where the normal form of a path names the
    entry the path names). *)
Theorem current_directory_invariant
    (start : list string) (files : gmap (list string) node) (e : Env)
    (lines : list string) :
  Fs.isdir files start (Fs.render start) = true →
  Forall (λ command_line, harmless command_line = true) lines →
  directory_ok (session lines (initial start files e)).
Proof.
  intros Hstart Hlines.
  assert (directory_ok (initial start files e)) as Hok.
  { split; [|done]. unfold initial, Fs.render. simpl. apply isabs_sep. }
  revert Hok. generalize (initial start files e).
  induction Hlines as [|command_line lines Hline Hlines IH]; intros w Hok;
    simpl; [done|].
  by apply IH, harmless_keeps_directory_ok.
Qed.

(** C10. When the path [_change_directory] validates does not exist or
    is not a directory, the call returns [success = false] and leaves
    the whole world, [current_directory] and the working directory of
    the process with it, as it was. *)
Theorem failed_cd_changes_nothing (args : list string) w :
  Fs.isdir (fs w) (cwd w) (resolved (cd_argument args w) w) = false →
  ∃ r, _change_directory args w = (inr r, w) ∧ success r = false.
Proof.
  intros Hdir. unfold _change_directory. run. fold (cd_argument args w).
  destruct (Fs.exists_ _ _ _); run.
  - rewrite Hdir. run. by eexists.
  - by eexists.
Qed.

(** C6. [_remove_directory] on a directory that has entries returns
    [success = false] with an error that mentions [not empty], and
    leaves the world, the directory and its content with it, as it
    was. *)
Theorem rmdir_not_empty_fails
    (dirname : string) (rest : list string) w (k : list string) :
  Fs.stat (fs w) (cwd w) (resolved dirname w) = inr (k, Dir) →
  Fs.children (fs w) k ≠ [] →
  ∃ r, _remove_directory (dirname :: rest) w = (inr r, w)
       ∧ success r = false
       ∧ Str.contains (error r) "not empty" = true.
Proof.
  intros Hstat Hchildren.
  pose proof (stat_isdir _ _ _ _ Hstat) as Hdir.
  pose proof (isdir_exists _ _ _ Hdir) as Hex.
  unfold _remove_directory. run. simpl remove_directories. run.
  rewrite Hex. run. rewrite Hdir. run.
  rewrite Hstat. destruct (Fs.children (fs w) k) as [|n ns] eqn:Hc; [done|].
  run. eexists. split; [reflexivity|]. split; [reflexivity|].
  simpl error. apply contains_app, contains_app. reflexivity.
Qed.

(** C4, amended. For an absolute path, changing to it twice ends in
    the same [current_directory] as changing to it once. *)
Theorem cd_twice_absolute (args : list string) w :
  Path.isabs (cd_argument args w) = true →
  current_directory (_change_directory args (_change_directory args w).2).2
  = current_directory (_change_directory args w).2.
Proof.
  intros Habs.
  assert (∀ w', env w' = env w → fs w' = fs w →
          resolved (cd_argument args w') w' = cd_argument args w) as Htarget.
  { intros w' Henv Hfs.
    assert (cd_argument args w' = cd_argument args w) as ->
      by (destruct args; simpl; congruence).
    by apply resolved_absolute. }
  pose proof (Htarget w eq_refl eq_refl) as Hfirst.
  destruct (Fs.isdir (fs w) (cwd w) (cd_argument args w)) eqn:Hdir.
  - destruct (cd_success args w) as (r & c & Hrun); rewrite ?Hfirst; [done..|].
    rewrite Hrun, Hfirst. simpl.
    set (w1 := World _ c (fs w) (env w)).
    pose proof (Htarget w1 eq_refl eq_refl) as Hsecond.
    destruct (cd_success args w1) as (r' & c' & Hrun'); rewrite ?Hsecond.
    + done.
    + simpl. by rewrite (isdir_absolute _ c (cwd w)).
    + rewrite Hrun', Hsecond. reflexivity.
  - assert ((_change_directory args w).2 = w) as Hrun
      by (apply cd_not_directory; by rewrite Hfirst).
    by rewrite !Hrun.
Qed.

End Directories.

Lemma failed_cd_changes_nothing_witness :
  Fs.isdir (fs sample_world) (cwd sample_world)
    (resolved (cd_argument ["d/f"] sample_world) sample_world) = false
  ∧ ∃ r, _change_directory ["d/f"] sample_world = (inr r, sample_world)
         ∧ success r = false.
Proof.
  split; [vm_compute; reflexivity|].
  apply (failed_cd_changes_nothing ["d/f"] sample_world). vm_compute; reflexivity.
Defined.

Lemma rmdir_not_empty_fails_witness :
  Fs.stat (fs sample_world) (cwd sample_world) (resolved "d" sample_world)
  = inr (["d"; "u"; "home"], Dir)
  ∧ Fs.children (fs sample_world) ["d"; "u"; "home"] ≠ []
  ∧ ∃ r, _remove_directory ["d"] sample_world = (inr r, sample_world)
         ∧ success r = false
         ∧ Str.contains (error r) "not empty" = true.
Proof.
  split; [vm_compute; reflexivity|]. split; [vm_compute; discriminate|].
  apply (rmdir_not_empty_fails "d" [] sample_world ["d"; "u"; "home"]);
    [vm_compute; reflexivity|vm_compute; discriminate].
Defined.

Lemma cd_twice_absolute_witness :
  Path.isabs (cd_argument ["/home/u/d/../e"] sample_world) = true
  ∧ current_directory
      (_change_directory ["/home/u/d/../e"]
         (_change_directory ["/home/u/d/../e"] sample_world).2).2
    = current_directory (_change_directory ["/home/u/d/../e"] sample_world).2.
Proof.
  split; [vm_compute; reflexivity|].
  apply (cd_twice_absolute ["/home/u/d/../e"] sample_world). vm_compute; reflexivity.
Defined.

Lemma current_directory_invariant_witness :
  Fs.isdir sample_files ["u"; "home"] (Fs.render ["u"; "home"]) = true
  ∧ Forall (λ command_line, harmless command_line = true)
      ["mkdir a/b"; "cd a/b/.."; "touch x"; "cp d c"; "  "; "CD c"]
  ∧ directory_ok
      (session ["mkdir a/b"; "cd a/b/.."; "touch x"; "cp d c"; "  "; "CD c"]
         (initial ["u"; "home"] sample_files tt)).
Proof.
  assert (Forall (λ command_line, harmless command_line = true)
            ["mkdir a/b"; "cd a/b/.."; "touch x"; "cp d c"; "  "; "CD c"])
    as Hlines by (repeat constructor).
  split; [vm_compute; reflexivity|]. split; [exact Hlines|].
  apply (current_directory_invariant ["u"; "home"] sample_files tt _
           (eq_refl : Fs.isdir sample_files ["u"; "home"]
                        (Fs.render ["u"; "home"]) = true) Hlines).
Defined.

(** C4 as stated fails for a relative path: [cd ..] twice is two levels
    up, once is one. *)
Lemma cd_twice_relative :
  current_directory (session ["cd .."; "cd .."] sample_world) = "/"
  ∧ current_directory (session ["cd .."] sample_world) = "/home"
  ∧ current_directory (session ["cd .."; "cd .."] sample_world)
    ≠ current_directory (session ["cd .."] sample_world).
Proof. vm_compute. repeat split; [reflexivity..|discriminate]. Qed.

(** C3 fails on the code: with [-f], a target that is missing still
    ends the command with an error, and the targets after it stay. *)
Lemma rm_force_missing_fails :
  execute_command "rm -f nosuch d/f" sample_world
  = (inr (Result false ""
            "[Errno 2] No such file or directory: '/home/u/nosuch'"),
     sample_world).
Proof. vm_compute. reflexivity. Qed.

(** C1 as stated fails: a session can remove the directory it is in. *)
Lemma current_directory_removed :
  directory_ok sample_world
  ∧ let w := session ["cd d"; "rm -r /home/u/d"] sample_world in
    current_directory w = "/home/u/d"
    ∧ Fs.exists_ (fs w) (cwd w) (current_directory w) = false
    ∧ (execute_command "pwd" w).1 = inr (Result true "/home/u/d" "").
Proof. vm_compute. repeat split; reflexivity. Qed.

(** * Further properties of the command handler *)

(** ** No handler raises *)

Section Returns.

Context {Env : Type} `{!Host Env}.

Implicit Types (w : world Env).

Lemma returns_ret {A : Type} (a : A) : returns (mret a : M Env A).
Proof. intros w. by eexists _, _. Qed.

Lemma returns_try {A : Type} (body : M Env A) handler :
  (∀ e, returns (handler e)) → returns (try_except body handler).
Proof.
  intros Hh w. rewrite run_try.
  destruct (body w) as [[e|a] w']; [apply Hh|by eexists _, _].
Qed.

Lemma report_returns e : returns (report e : M Env result).
Proof. apply returns_ret. Qed.

(** Each handler catches what its body raises. *)
Lemma call_returns h args : returns (call h args : M Env result).
Proof.
  destruct h; simpl;
    try (apply returns_try; intros e; apply report_returns);
    try apply returns_ret.
  - intros w. by eexists _, _.
  - apply returns_try. intros e.
    destruct (is_PermissionError e); apply returns_ret.
Qed.

Lemma execute_builtin command_line first args h w :
  _parse_command command_line = first :: args →
  supported_commands !! Str.lower first = Some h →
  execute_command command_line w = call h args w.
Proof.
  intros Hparse Hlookup. unfold execute_command.
  rewrite (execute_dispatch _ _ _ _ Hparse), run_try, lookup_supported, Hlookup.
  simpl. by destruct (call_returns h args w) as (r & w' & ->).
Qed.

(** X1. For a line whose first token, in lower case, names a built-in
    command, [execute_command] returns what the handler returns on the
    remaining tokens, world included: the handler raises nothing, the
    catch-all of the dispatcher is not taken and the host's interpreter
    is not asked. *)
Theorem builtin_result_verbatim
    (command_line first : string) (args : list string) (h : handler) w :
  _parse_command command_line = first :: args →
  supported_commands !! Str.lower first = Some h →
  ∃ r w', call h args w = (inr r, w')
          ∧ execute_command command_line w = (inr r, w').
Proof.
  intros Hparse Hlookup.
  destruct (call_returns h args w) as (r & w' & Hcall).
  exists r, w'. split; [done|]. unfold execute_command.
  rewrite (execute_dispatch _ _ _ _ Hparse), run_try, lookup_supported, Hlookup.
  simpl. by rewrite Hcall.
Qed.

(** X2. Two lines with the same arguments whose command names are bound
    to the same handler, such as an alias or another spelling in upper
    case, give the same result and the same world. *)
Theorem aliases_agree
    (line1 line2 first1 first2 : string) (args : list string) (h : handler) w :
  _parse_command line1 = first1 :: args →
  _parse_command line2 = first2 :: args →
  supported_commands !! Str.lower first1 = Some h →
  supported_commands !! Str.lower first2 = Some h →
  execute_command line1 w = execute_command line2 w.
Proof.
  intros Hparse1 Hparse2 Hlookup1 Hlookup2.
  rewrite (execute_builtin _ _ _ _ _ Hparse1 Hlookup1).
  by rewrite (execute_builtin _ _ _ _ _ Hparse2 Hlookup2).
Qed.

(** X3. The handlers of [ls], [pwd], [cat], [clear], [help], [ps],
    [whoami], [date], [echo], [find], [grep], [top] and [exit] leave the
    whole world as it was, whatever their arguments: files, working
    directory and [current_directory]. *)
Theorem reading_changes_nothing (h : handler) (args : list string) w :
  reads_only h = true → (call h args w).2 = w.
Proof.
  intros Hread. symmetry.
  destruct h; try discriminate; simpl;
    first
      [ by apply (_list_directory_respects eq)
      | by apply (_print_working_directory_respects eq)
      | by apply (_show_file_content_respects eq)
      | by apply (_show_processes_respects eq)
      | by apply (_whoami_respects eq)
      | by apply (_show_date_respects eq)
      | by apply (_find_files_respects eq)
      | by apply (_grep_files_respects eq)
      | by apply (_show_system_info_respects eq)
      | reflexivity ].
Qed.

(** X4. Called with fewer arguments than it needs (two for [cp] and
    [mv], one for [mkdir], [rmdir], [rm], [touch], [cat], [find] and
    [grep]), a handler returns its own [missing ...] error and changes
    nothing. *)
Theorem missing_argument_reported
    (h : handler) (msg : string) (args : list string) w :
  missing_argument h = Some msg →
  length args < arguments_needed h →
  call h args w = (inr (failure msg), w).
Proof.
  intros Hmsg Hlen.
  destruct h; simpl in Hmsg, Hlen; simplify_eq;
    destruct args as [|a0 [|a1 args]]; simpl in Hlen; try lia; reflexivity.
Qed.

End Returns.

Lemma builtin_result_verbatim_witness :
  _parse_command "  PWD   now " = ["PWD"; "now"]
  ∧ supported_commands !! Str.lower "PWD" = Some print_working_directory
  ∧ ∃ r w', call print_working_directory ["now"] sample_world = (inr r, w')
            ∧ execute_command "  PWD   now " sample_world = (inr r, w').
Proof.
  split; [reflexivity|]. split; [reflexivity|].
  apply (builtin_result_verbatim "  PWD   now " "PWD" ["now"]
           print_working_directory sample_world); reflexivity.
Defined.

Lemma aliases_agree_witness :
  _parse_command "DIR d" = ["DIR"; "d"]
  ∧ _parse_command "ls  d" = ["ls"; "d"]
  ∧ supported_commands !! Str.lower "DIR" = Some list_directory
  ∧ supported_commands !! Str.lower "ls" = Some list_directory
  ∧ execute_command "DIR d" sample_world = execute_command "ls  d" sample_world.
Proof.
  repeat (split; [reflexivity|]).
  apply (aliases_agree "DIR d" "ls  d" "DIR" "ls" ["d"] list_directory
           sample_world); reflexivity.
Defined.

Lemma reading_changes_nothing_witness :
  reads_only grep_files = true
  ∧ (call grep_files ["world"; "d/f"] sample_world).2 = sample_world.
Proof.
  split; [reflexivity|].
  apply (reading_changes_nothing grep_files ["world"; "d/f"] sample_world).
  reflexivity.
Defined.

Lemma missing_argument_reported_witness :
  missing_argument copy_file = Some "cp: missing source or destination"
  ∧ length ["d/f"] < arguments_needed copy_file
  ∧ call copy_file ["d/f"] sample_world
    = (inr (failure "cp: missing source or destination"), sample_world).
Proof.
  split; [reflexivity|]. split; [simpl; lia|].
  apply (missing_argument_reported copy_file
           "cp: missing source or destination" ["d/f"] sample_world);
    [reflexivity|simpl; lia].
Defined.

(** ** Tokens *)

Section Tokens.

Lemma lstrip_blank_inv s : Str.lstrip s = "" → blank s.
Proof.
  unfold blank. induction s as [|c s IH]; simpl; [constructor|].
  destruct (Str.isspace c) eqn:Hc; [|done]. intros Hs. constructor; auto.
Qed.

Lemma strip_blank_inv s : Str.strip s = "" → blank s.
Proof.
  unfold Str.strip. intros Hstrip. apply lstrip_blank_inv.
  destruct (lstrip_head s) as [Hl|(c & s' & Hl & Hc)]; [done|].
  rewrite Hl in Hstrip. destruct (rstrip_head c s' Hc) as [r Hr].
  rewrite Hr in Hstrip. discriminate.
Qed.

Lemma lstrip_token_start c s : Str.isspace c = false → Str.lstrip (String c s) = String c s.
Proof. intros Hc. simpl. by rewrite Hc. Qed.

Lemma split_token_app p s :
  token p →
  (s = "" ∨ ∃ c s', s = String c s' ∧ Str.isspace c = true) →
  Str.split (p +:+ s) = p :: Str.split s.
Proof.
  intros [Hne Hfree] Hs. induction p as [|a p IH]; [done|].
  destruct Hfree as [Ha Hfree].
  change (String a p +:+ s) with (String a (p +:+ s)).
  destruct p as [|b p'].
  - destruct Hs as [->|(c & s' & -> & Hc)]; simpl; rewrite Ha; [done|].
    by rewrite Hc.
  - specialize (IH ltac:(done) Hfree). destruct Hfree as [Hb _].
    change (Str.split (String a (String b p' +:+ s)))
      with (if Str.isspace a then Str.split (String b p' +:+ s)
            else
              if Str.isspace b
              then String a EmptyString :: Str.split (String b p' +:+ s)
              else
                match Str.split (String b p' +:+ s) with
                | w :: ws => String a w :: ws
                | [] => [String a EmptyString]
                end).
    by rewrite Ha, Hb, IH.
Qed.

Lemma append_empty s : s +:+ "" = s.
Proof.
  induction s as [|c s IH]; [done|].
  change (String c (s +:+ "") = String c s). by rewrite IH.
Qed.

Lemma split_join_tokens args :
  Forall token args → Str.split (Str.join " " args) = args.
Proof.
  induction args as [|p ps IH]; [done|].
  intros Hall. apply Forall_cons in Hall as [Hp Hps].
  destruct ps as [|q ps].
  - simpl. rewrite <- (append_empty p) at 1.
    rewrite split_token_app; [done|done|by left].
  - change (Str.join " " (p :: q :: ps))
      with (p +:+ String " " (Str.join " " (q :: ps))).
    rewrite split_token_app; [|done|right; by eexists _, _].
    f_equal. simpl Str.split at 1. by apply IH.
Qed.

Lemma lstrip_join_tokens args :
  Forall token args → Str.lstrip (Str.join " " args) = Str.join " " args.
Proof.
  destruct args as [|p ps]; [done|]. intros Hall.
  apply Forall_cons in Hall as [[Hne Hfree] _].
  destruct p as [|c p]; [done|]. destruct Hfree as [Hc _].
  destruct ps; simpl; by rewrite Hc.
Qed.

(** X5. The tokens of a line are never empty and hold no whitespace,
    and a line has no token exactly when it is blank. *)
Theorem parse_command_tokens (command_line : string) :
  Forall token (_parse_command command_line)
  ∧ (_parse_command command_line = [] ↔ blank command_line).
Proof.
  split; [apply split_tokens|].
  rewrite parse_blank_iff. split; [apply strip_blank_inv|apply strip_blank].
Qed.

(** X6. Parsing what [echo] returns gives back its arguments, when
    these are tokens: the output of [echo] reads as the same command
    line arguments again. *)
Theorem echo_output_parses_back (args : list string) :
  Forall token args → _parse_command (Str.join " " args) = args.
Proof.
  intros Hall. unfold _parse_command, Str.strip.
  by rewrite lstrip_join_tokens, rstrip_join_tokens, split_join_tokens.
Qed.

End Tokens.

Lemma echo_output_parses_back_witness :
  Forall token ["-n"; "a,b"; "c"]
  ∧ _parse_command (Str.join " " ["-n"; "a,b"; "c"]) = ["-n"; "a,b"; "c"].
Proof.
  assert (Forall token ["-n"; "a,b"; "c"]) as Htokens
    by (repeat constructor; discriminate).
  split; [exact Htokens|].
  exact (echo_output_parses_back ["-n"; "a,b"; "c"] Htokens).
Defined.

(** ** Removing, creating and reading entries *)

Section Entries.

Context {Env : Type} `{!Host Env}.

Implicit Types (w : world Env).

Lemma filter_flags args :
  Forall (λ arg, Str.startswith arg "-" = true) args →
  filter (λ arg, Str.startswith arg "-" = false) args = [].
Proof.
  induction 1 as [|arg args Harg Hargs IH]; [done|].
  rewrite filter_cons_False; [done|]. by rewrite Harg.
Qed.

Lemma stat_exists files c p k n :
  Fs.stat files c p = inr (k, n) → Fs.exists_ files c p = true.
Proof. unfold Fs.exists_. by intros ->. Qed.

Lemma stat_file_not_dir files c p k content :
  Fs.stat files c p = inr (k, File content) → Fs.isdir files c p = false.
Proof. unfold Fs.isdir. by intros ->. Qed.

(** X7. [rm] given nothing but flags (arguments that start with [-]),
    or nothing at all, reports a missing name and changes nothing. *)
Theorem rm_flags_only (args : list string) w :
  Forall (λ arg, Str.startswith arg "-" = true) args →
  _remove_file args w
  = (inr (failure "rm: missing file/directory name"), w).
Proof.
  intros Hflags. unfold _remove_file. run.
  destruct args as [|arg args']; [done|]. cbv zeta.
  by rewrite (filter_flags _ Hflags).
Qed.

(** X8. Without [-r] or [-rf] among its arguments (the spelling [-fr]
    does not count), [rm] refuses a first target that is a directory
    and changes nothing. *)
Theorem rm_directory_needs_r
    (args rest : list string) (filename : string) w (k : list string) :
  filter (λ arg, Str.startswith arg "-" = false) args = filename :: rest →
  "-r" ∉ args → "-rf" ∉ args →
  Fs.stat (fs w) (cwd w) (resolved filename w) = inr (k, Dir) →
  _remove_file args w
  = (inr (failure ("'" +:+ resolved filename w
                   +:+ "' is a directory. Use -r flag to remove directories")),
     w).
Proof.
  intros Hfiles Hr Hrf Hstat.
  pose proof (stat_exists _ _ _ _ _ Hstat) as Hex.
  pose proof (stat_isdir _ _ _ _ Hstat) as Hdir.
  unfold _remove_file. run.
  destruct args as [|arg args']; [done|]. cbv zeta. rewrite Hfiles.
  rewrite (bool_decide_eq_false_2 ("-r" ∈ _)), (bool_decide_eq_false_2 ("-rf" ∈ _))
    by done.
  simpl remove_files. run. rewrite Hex. cbn [andb negb orb]. run.
  rewrite Hdir. by run.
Qed.

(** X9. Without [-f] or [-rf] among its arguments, [rm] reports a
    first target that does not exist and changes nothing. *)
Theorem rm_missing_reported
    (args rest : list string) (filename : string) w :
  filter (λ arg, Str.startswith arg "-" = false) args = filename :: rest →
  "-f" ∉ args → "-rf" ∉ args →
  Fs.exists_ (fs w) (cwd w) (resolved filename w) = false →
  _remove_file args w
  = (inr (failure ("File/directory '" +:+ resolved filename w
                   +:+ "' does not exist")),
     w).
Proof.
  intros Hfiles Hf Hrf Hex.
  unfold _remove_file. run.
  destruct args as [|arg args']; [done|]. cbv zeta. rewrite Hfiles.
  rewrite (bool_decide_eq_false_2 ("-f" ∈ _)), (bool_decide_eq_false_2 ("-rf" ∈ _))
    by done.
  simpl remove_files. run. rewrite Hex. cbn [andb negb orb]. by run.
Qed.

(** X10. [rm] with one target that is a file removes that entry and no
    other, whatever the flags, and says so. *)
Theorem rm_removes_file
    (args : list string) (filename : string) w (k : list string)
    (content : string) :
  filter (λ arg, Str.startswith arg "-" = false) args = [filename] →
  Fs.stat (fs w) (cwd w) (resolved filename w) = inr (k, File content) →
  _remove_file args w
  = (inr (ok ("Removed: file '" +:+ filename +:+ "'")),
     World (current_directory w) (cwd w) (delete k (fs w)) (env w)).
Proof.
  intros Hfiles Hstat.
  pose proof (stat_exists _ _ _ _ _ Hstat) as Hex.
  pose proof (stat_file_not_dir _ _ _ _ _ Hstat) as Hdir.
  unfold _remove_file. run.
  destruct args as [|arg args']; [done|]. cbv zeta. rewrite Hfiles.
  simpl remove_files. run. rewrite Hex. cbn [andb negb]. run.
  rewrite Hdir. run. unfold os_remove. run. rewrite Hstat.
  unfold set_fs. run. reflexivity.
Qed.

(** X11. [rmdir] with one target that is an empty directory, not the
    root and not named through a final [.], removes that entry and no
    other, and says so. *)
Theorem rmdir_removes_empty (dirname : string) w (k : list string) :
  Fs.stat (fs w) (cwd w) (resolved dirname w) = inr (k, Dir) →
  Fs.children (fs w) k = [] →
  k ≠ [] →
  Fs.last_component (resolved dirname w) ≠ "." →
  _remove_directory [dirname] w
  = (inr (ok ("Removed directory(s): " +:+ dirname)),
     World (current_directory w) (cwd w) (delete k (fs w)) (env w)).
Proof.
  intros Hstat Hempty Hroot Hdot.
  pose proof (stat_exists _ _ _ _ _ Hstat) as Hex.
  pose proof (stat_isdir _ _ _ _ Hstat) as Hdir.
  unfold _remove_directory. run. simpl remove_directories. run.
  rewrite Hex. run. rewrite Hdir. run. rewrite Hstat, Hempty. run.
  unfold os_rmdir. run. rewrite Hstat.
  rewrite !bool_decide_eq_false_2 by done.
  rewrite bool_decide_eq_true_2 by done.
  unfold set_fs. by run.
Qed.

(** X12. [cat] reads its first argument only: a file gives its text as
    the output, which is its bytes decoded as UTF-8 with the bytes that
    do not decode left out and every line end read as a line feed (for
    a text of characters up to U+00FF); a directory and a missing path
    each give their own error; the world stays as it was. *)
Theorem cat_first_argument
    (filename : string) (rest : list string) (text : string) w :
  (∀ k content,
     Fs.stat (fs w) (cwd w) (resolved filename w) = inr (k, File content) →
     read_text content = Some text) →
  _show_file_content (filename :: rest) w
  = (inr (match Fs.stat (fs w) (cwd w) (resolved filename w) with
          | inl _ =>
              failure ("File '" +:+ resolved filename w +:+ "' does not exist")
          | inr (_, Dir) =>
              failure ("'" +:+ resolved filename w +:+ "' is a directory")
          | inr (_, File _) => ok text
          end),
     w).
Proof.
  intros Htext. unfold _show_file_content. run.
  destruct (Fs.stat _ _ _) as [e|[k [content|]]] eqn:Hstat.
  - assert (Fs.exists_ (fs w) (cwd w) (resolved filename w) = false) as ->
      by (unfold Fs.exists_; by rewrite Hstat).
    by run.
  - rewrite (stat_exists _ _ _ _ _ Hstat). run.
    rewrite (stat_file_not_dir _ _ _ _ _ Hstat). run.
    unfold open_text. run. rewrite Hstat, (Htext k content eq_refl). by run.
  - rewrite (stat_exists _ _ _ _ _ Hstat). run.
    rewrite (stat_isdir _ _ _ _ Hstat). by run.
Qed.


End Entries.

(** ** Paths that name their own location *)

Section Canonical.

Lemma last_char_app a b : b ≠ "" → last_char (a +:+ b) = last_char b.
Proof.
  intros Hb. induction a as [|c a IH]; [done|].
  change (String c a +:+ b) with (String c (a +:+ b)). simpl.
  destruct (a +:+ b) eqn:Hab; [|done].
  destruct a; simpl in Hab; [done|discriminate].
Qed.

Lemma last_char_slash_free n :
  n ≠ "" → slash_free n → ∃ c, last_char n = Some c ∧ Ascii.eqb c Path.sep = false.
Proof.
  induction n as [|c n IH]; [done|]. intros _ [Hc Hn].
  destruct n as [|c' n']; [by exists c|]. by apply IH.
Qed.

Lemma last_char_none s : last_char s = None → s = "".
Proof.
  induction s as [|a s IH]; [done|]. destruct s as [|b s']; [done|].
  intros Hlast. by specialize (IH Hlast).
Qed.

Lemma rev_app_head s : ∀ acc c,
  last_char s = Some c → ∃ t, String.rev_app s acc = String c t.
Proof.
  induction s as [|a s IH]; intros acc c Hlast; [done|].
  destruct s as [|b s']; [simpl in *; simplify_eq; by eexists|].
  simpl. by apply IH.
Qed.

Lemma endswith_sep s :
  Str.endswith s "/" = match last_char s with
                       | Some c => Ascii.eqb c Path.sep
                       | None => false
                       end.
Proof.
  unfold Str.endswith, String.rev.
  destruct (last_char s) as [c|] eqn:Hlast.
  - destruct (rev_app_head s "" c Hlast) as [t ->].
    cbn -[ascii_dec]. rewrite Ascii.eqb_sym.
    destruct (ascii_dec "/" c) as [<-|Hne]; [by destruct t|].
    symmetry. by apply Ascii.eqb_neq.
  - by rewrite (last_char_none s Hlast).
Qed.

Lemma startswith_sep_slash_free n :
  n ≠ "" → slash_free n → Str.startswith n "/" = false.
Proof.
  destruct n as [|c n]; [done|]. intros _ [Hc _].
  unfold Str.startswith. cbn -[ascii_dec].
  destruct (ascii_dec "/" c) as [<-|]; [done|done].
Qed.

Lemma append_assoc a b c : (a +:+ b) +:+ c = a +:+ (b +:+ c).
Proof.
  induction a as [|x a IH]; [done|].
  change (String x ((a +:+ b) +:+ c) = String x (a +:+ (b +:+ c))).
  by rewrite IH.
Qed.

Lemma prefix_empty s : String.prefix "" s = true.
Proof. by destruct s. Qed.

Lemma startswith_double_sep s :
  Str.startswith (String Path.sep s) "//" = Str.startswith s "/".
Proof.
  unfold Str.startswith. cbn -[ascii_dec].
  by destruct (ascii_dec "/" Path.sep).
Qed.

Lemma startswith_app n s :
  n ≠ "" → Str.startswith (n +:+ s) "/" = Str.startswith n "/".
Proof.
  destruct n as [|c n]; [done|]. intros _.
  change (String c n +:+ s) with (String c (n +:+ s)).
  unfold Str.startswith. cbn -[ascii_dec].
  destruct (ascii_dec "/" c); [|done]. by rewrite !prefix_empty.
Qed.

Lemma startswith_join names :
  Forall entry_name names → Str.startswith (Str.join "/" names) "/" = false.
Proof.
  destruct names as [|n names]; [done|]. intros Hall.
  apply Forall_cons in Hall as [[(Hne & _ & _) Hfree] _].
  destruct names as [|m names];
    [by apply startswith_sep_slash_free|].
  change (Str.join "/" (n :: m :: names))
    with (n +:+ "/" +:+ Str.join "/" (m :: names)).
  rewrite startswith_app by done. by apply startswith_sep_slash_free.
Qed.

Lemma join_snoc sep l d :
  l ≠ [] → Str.join sep (l ++ [d]) = Str.join sep l +:+ sep +:+ d.
Proof.
  induction l as [|p ps IH]; [done|]. intros _.
  destruct ps as [|q ps]; [done|].
  change (Str.join sep ((p :: q :: ps) ++ [d]))
    with (p +:+ sep +:+ Str.join sep ((q :: ps) ++ [d])).
  rewrite IH by done.
  change (Str.join sep (p :: q :: ps)) with (p +:+ sep +:+ Str.join sep (q :: ps)).
  by rewrite !append_assoc.
Qed.

Lemma render_cons d k :
  k ≠ [] → Fs.render (d :: k) = Fs.render k +:+ "/" +:+ d.
Proof.
  intros Hk. unfold Fs.render. simpl rev.
  rewrite join_snoc by (by destruct k using rev_ind; [|rewrite rev_app_distr]).
  reflexivity.
Qed.

Lemma render_last_char d k :
  entry_name d →
  ∃ c, last_char (Fs.render (d :: k)) = Some c ∧ Ascii.eqb c Path.sep = false.
Proof.
  intros [(Hne & _ & _) Hfree].
  destruct (last_char_slash_free d Hne Hfree) as (c & Hlast & Hc).
  exists c. split; [|done].
  destruct k as [|x k].
  - change (Fs.render [d]) with ("/" +:+ d). by rewrite last_char_app.
  - rewrite render_cons by done.
    rewrite last_char_app; [|by destruct d].
    by rewrite (last_char_app "/" d).
Qed.

(** [os.path.join] of a directory's path and a name is the path of the
    entry. *)
Lemma join_render d k :
  entry_name d → Forall entry_name k →
  Path.join (Fs.render k) d = Fs.render (d :: k).
Proof.
  intros Hd Hk. pose proof Hd as [(Hne & _ & _) Hfree]. unfold Path.join.
  rewrite (startswith_sep_slash_free d Hne Hfree).
  destruct k as [|x k]; [reflexivity|].
  apply Forall_cons in Hk as [Hx _].
  rewrite bool_decide_eq_false_2 by done. rewrite endswith_sep.
  destruct (render_last_char x k Hx) as (c & -> & ->).
  simpl. by rewrite (render_cons d (x :: k)).
Qed.

Lemma render_sep k : ∃ s, Fs.render k = String Path.sep s.
Proof. by eexists. Qed.

Lemma render_nonempty k : Fs.render k ≠ "".
Proof. done. Qed.

Lemma isabs_render k : Path.isabs (Fs.render k) = true.
Proof. apply isabs_sep. Qed.

Lemma entry_names_slash_free names :
  Forall entry_name names → Forall slash_free names.
Proof. intros Hall. eapply Forall_impl; [exact Hall|]. by intros ? [_ ?]. Qed.

Lemma split_on_render k :
  Forall entry_name k →
  Str.split_on Path.sep (Fs.render k)
  = "" :: match k with [] => [""] | _ => rev k end.
Proof.
  intros Hk. change (Fs.render k) with (String Path.sep (Str.join "/" (rev k))).
  rewrite split_on_sep. f_equal. destruct k as [|x k]; [done|].
  apply split_on_join.
  - simpl. by destruct (rev k).
  - by apply Forall_rev, entry_names_slash_free.
Qed.

(** The path of a location names it. *)
Lemma stat_render files c k n :
  located files k → files !! k = Some n →
  Fs.stat files c (Fs.render k) = inr (k, n).
Proof.
  intros (Hnames & Hchain & Hroot) Hk. unfold Fs.stat, Fs.resolve.
  rewrite bool_decide_eq_false_2, isabs_render by apply render_nonempty.
  rewrite split_on_render, walk_root by done.
  destruct k as [|x k].
  - simpl. by rewrite Hroot, Hk.
  - pose proof (walk_names files (rev (x :: k)) []) as Hwalk.
    rewrite rev_involutive, app_nil_r in Hwalk.
    rewrite Hwalk; [by rewrite Hk|by apply Forall_rev|done].
Qed.

Lemma normpath_loop_names i names : ∀ cur,
  Forall entry_name names →
  Path.normpath_loop i cur names = (rev names ++ cur)%list.
Proof.
  induction names as [|n names IH]; intros cur Hall; [done|].
  apply Forall_cons in Hall as [[(Hne & Hdot & Hup) _] Hall]. simpl.
  rewrite !bool_decide_eq_false_2 by done. simpl.
  rewrite IH by done. by rewrite <- app_assoc.
Qed.

(** The path of a location is in normal form. *)
Lemma normpath_render k :
  Forall entry_name k → Path.normpath (Fs.render k) = Fs.render k.
Proof.
  intros Hk. unfold Path.normpath.
  rewrite (bool_decide_eq_false_2 (Fs.render k = "")) by apply render_nonempty.
  assert (Str.startswith (Fs.render k) "/" = true) as ->
    by apply isabs_render.
  assert (Str.startswith (Fs.render k) "//" = false) as ->.
  { change (Fs.render k) with (String Path.sep (Str.join "/" (rev k))).
    rewrite startswith_double_sep. by apply startswith_join, Forall_rev. }
  cbn [andb]. rewrite split_on_render by done.
  assert (Path.normpath_loop 1 [] ("" :: match k with [] => [""] | _ => rev k end)
          = k) as ->.
  { destruct k as [|x k]; [done|].
    change (Path.normpath_loop 1 [] ("" :: rev (x :: k)))
      with (Path.normpath_loop 1 [] (rev (x :: k))).
    rewrite normpath_loop_names by (by apply Forall_rev).
    by rewrite rev_involutive, app_nil_r. }
  change (Str.repeat "/" 1 +:+ Str.join "/" (rev k)) with (Fs.render k).
  by rewrite (bool_decide_eq_false_2 (Fs.render k = "")) by apply render_nonempty.
Qed.

Lemma cut_last_sep_free d :
  slash_free d → Path.cut_last_sep d = ("", d).
Proof.
  induction d as [|c d IH]; [done|]. intros [Hc Hd]. simpl.
  by rewrite IH, Hc.
Qed.

Lemma cut_last_sep_app a d :
  slash_free d → Path.cut_last_sep (a +:+ "/" +:+ d) = (a +:+ "/", d).
Proof.
  intros Hd. induction a as [|c a IH].
  - change ("" +:+ "/" +:+ d) with (String Path.sep d). simpl.
    by rewrite cut_last_sep_free.
  - change (String c a +:+ "/" +:+ d) with (String c (a +:+ "/" +:+ d)).
    simpl. rewrite IH.
    rewrite bool_decide_eq_false_2; [done|]. by destruct a.
Qed.

Lemma rstrip_char_keep x s c :
  last_char s = Some c → Ascii.eqb c x = false → Str.rstrip_char x s = s.
Proof.
  induction s as [|a s IH]; [done|]. intros Hlast Hc.
  destruct s as [|b s']; [simpl in *; simplify_eq; by rewrite Hc|].
  simpl in Hlast. specialize (IH Hlast Hc).
  change (Str.rstrip_char x (String a (String b s')))
    with (match Str.rstrip_char x (String b s') with
          | EmptyString => if Ascii.eqb a x then EmptyString else String a EmptyString
          | r => String a r
          end).
  by rewrite IH.
Qed.

Lemma rstrip_char_sep x s c :
  last_char s = Some c → Ascii.eqb c x = false →
  Str.rstrip_char x (s +:+ String x "") = s.
Proof.
  induction s as [|a s IH]; [done|]. intros Hlast Hc.
  change (String a s +:+ String x "") with (String a (s +:+ String x "")).
  destruct s as [|b s'].
  - simpl in *. simplify_eq. by rewrite Ascii.eqb_refl, Hc.
  - simpl in Hlast. specialize (IH Hlast Hc).
    change (Str.rstrip_char x (String a (String b s' +:+ String x "")))
      with (match Str.rstrip_char x (String b s' +:+ String x "") with
            | EmptyString =>
                if Ascii.eqb a x then EmptyString else String a EmptyString
            | r => String a r
            end).
    by rewrite IH.
Qed.

Lemma rstrip_sep_app s c :
  last_char s = Some c → Ascii.eqb c Path.sep = false →
  Str.rstrip_char Path.sep (s +:+ "/") = s.
Proof. apply (rstrip_char_sep Path.sep). Qed.

(** [os.path.split] of the path of an entry: the path of its directory
    and its name. *)
Lemma split_render d k :
  entry_name d → Forall entry_name k →
  Path.split (Fs.render (d :: k)) = (Fs.render k, d).
Proof.
  intros [_ Hfree] Hk. unfold Path.split. destruct k as [|x k].
  - change (Fs.render [d]) with ("" +:+ "/" +:+ d).
    by rewrite cut_last_sep_app.
  - apply Forall_cons in Hk as [Hx _].
    rewrite render_cons, cut_last_sep_app by done.
    destruct (render_last_char x k Hx) as (c & Hlast & Hc).
    rewrite (rstrip_sep_app _ _ Hlast Hc).
    by rewrite bool_decide_eq_false_2 by apply render_nonempty.
Qed.

Lemma basename_render d k :
  entry_name d → Forall entry_name k → Path.basename (Fs.render (d :: k)) = d.
Proof.
  intros [Hreal Hfree] Hk. unfold Path.basename. destruct k as [|x k].
  - change (Fs.render [d]) with ("" +:+ "/" +:+ d).
    by rewrite cut_last_sep_app.
  - by rewrite render_cons, cut_last_sep_app.
Qed.

Lemma last_component_render d k :
  entry_name d → Forall entry_name k → Fs.last_component (Fs.render (d :: k)) = d.
Proof.
  intros Hd Hk. unfold Fs.last_component.
  destruct (render_last_char d k Hd) as (c & Hlast & Hc).
  rewrite (rstrip_char_keep _ _ _ Hlast Hc). by apply basename_render.
Qed.

End Canonical.

(** ** Making, entering and removing a directory *)

Section Trees.

Context {Env : Type} `{!Host Env}.

Implicit Types (w : world Env).

Lemma resolve_render files c k :
  located files k → Fs.resolve files c (Fs.render k) = inr k.
Proof.
  intros (Hnames & Hchain & Hroot). unfold Fs.resolve.
  rewrite bool_decide_eq_false_2, isabs_render by apply render_nonempty.
  rewrite split_on_render, walk_root by done.
  destruct k as [|x k].
  - simpl. by rewrite Hroot.
  - pose proof (walk_names files (rev (x :: k)) []) as Hwalk.
    rewrite rev_involutive, app_nil_r in Hwalk.
    apply Hwalk; [by apply Forall_rev|done].
Qed.

Lemma located_cons files d k :
  located files k → files !! k = Some Dir → entry_name d →
  located files (d :: k).
Proof.
  intros (Hnames & Hchain & Hroot) Hk Hd.
  split; [by constructor|]. by split.
Qed.

Lemma chain_keeps (files files' : gmap (list string) node) k :
  (∀ k', files !! k' = Some Dir → files' !! k' = Some Dir) →
  chain files k → chain files' k.
Proof.
  intros Hkeep. induction k as [|x k IH]; [done|].
  intros [Hk Hchain]. split; auto.
Qed.

Lemma located_keeps (files files' : gmap (list string) node) k :
  (∀ k', files !! k' = Some Dir → files' !! k' = Some Dir) →
  located files k → located files' k.
Proof.
  intros Hkeep (Hnames & Hchain & Hroot).
  split; [done|]. split; [by eapply chain_keeps|auto].
Qed.

Lemma resolved_render d kc w :
  current_directory w = Fs.render kc → entry_name d → Forall entry_name kc →
  resolved d w = Fs.render (d :: kc).
Proof.
  intros Hcd Hd Hkc. unfold resolved, Path.isabs.
  destruct Hd as [(Hne & Hdot & Hup) Hfree].
  rewrite (startswith_sep_slash_free d Hne Hfree), Hcd.
  by apply join_render.
Qed.

(** [os.makedirs] of a new name in a directory that is there makes
    that one directory. *)
Lemma os_makedirs_render d kc w :
  located (fs w) kc → fs w !! kc = Some Dir → entry_name d →
  fs w !! (d :: kc) = None →
  os_makedirs (Fs.render (d :: kc)) w
  = (inr tt, World (current_directory w) (cwd w) (<[d :: kc := Dir]> (fs w))
               (env w)).
Proof.
  intros Hloc Hkc Hd Hnew. pose proof Hloc as (Hnames & _ & _).
  pose proof Hd as [(Hne & _ & _) _].
  unfold os_makedirs. simpl makedirs.
  rewrite split_render by done.
  rewrite (bool_decide_eq_false_2 (d = "")) by done. run.
  assert (Fs.exists_ (fs w) (cwd w) (Fs.render kc) = true) as ->
    by (unfold Fs.exists_; by rewrite (stat_render _ _ _ Dir)).
  rewrite andb_false_r. unfold os_mkdir. run.
  destruct (render_last_char d kc Hd) as (c & Hlast & Hc).
  rewrite (rstrip_char_keep _ _ _ Hlast Hc).
  rewrite bool_decide_eq_false_2 by apply render_nonempty.
  rewrite resolve_render by (by apply located_cons).
  by rewrite Hnew.
Qed.

(** X14. [mkdir] of one new name in the current directory, when this
    is named by its own path, creates that directory and nothing else,
    and says so. *)
Theorem mkdir_creates (d : string) (kc : list string) w :
  current_directory w = Fs.render kc →
  located (fs w) kc → fs w !! kc = Some Dir →
  entry_name d → fs w !! (d :: kc) = None →
  _make_directory [d] w
  = (inr (ok ("Created directory(s): " +:+ d)),
     World (current_directory w) (cwd w) (<[d :: kc := Dir]> (fs w)) (env w)).
Proof.
  intros Hcd Hloc Hkc Hd Hnew. pose proof Hloc as (Hnames & _ & _).
  unfold _make_directory. run. simpl make_directories. run.
  rewrite (resolved_render d kc w) by done.
  assert (Fs.exists_ (fs w) (cwd w) (Fs.render (d :: kc)) = false) as ->.
  { unfold Fs.exists_, Fs.stat.
    rewrite resolve_render by (by apply located_cons). by rewrite Hnew. }
  run. rewrite os_makedirs_render by done. by run.
Qed.

Lemma cd_run (args : list string) w (k : list string) :
  Path.isabs (resolved (cd_argument args w) w) = true →
  Fs.stat (fs w) (cwd w) (resolved (cd_argument args w) w) = inr (k, Dir) →
  _change_directory args w
  = (inr (ok ("Changed directory to: "
              +:+ Path.normpath (resolved (cd_argument args w) w))),
     World (Path.normpath (resolved (cd_argument args w) w)) k (fs w) (env w)).
Proof.
  intros Habs Hstat.
  pose proof (stat_exists _ _ _ _ _ Hstat) as Hex.
  pose proof (stat_isdir _ _ _ _ Hstat) as Hdir.
  destruct (stat_normpath _ _ (cwd w) _ _ Habs Hstat) as [_ Hhere].
  unfold _change_directory. run. fold (cd_argument args w).
  rewrite Hex. run. rewrite Hdir. run.
  unfold os_path_abspath. rewrite Habs. run.
  unfold os_chdir. run. simpl. rewrite Hhere.
  unfold set_cwd. by run.
Qed.

(** X15. Round trip: after [mkdir d] and [cd d] in a current directory
    named by its own path, [pwd] returns the path of the new directory,
    whose last component is [d], and the process is in that
    directory. *)
Theorem mkdir_cd_pwd (d : string) (kc : list string) w :
  current_directory w = Fs.render kc →
  located (fs w) kc → fs w !! kc = Some Dir →
  entry_name d → fs w !! (d :: kc) = None →
  let w1 := (_make_directory [d] w).2 in
  let w2 := (_change_directory [d] w1).2 in
  _print_working_directory [] w2 = (inr (ok (Fs.render (d :: kc))), w2)
  ∧ Path.basename (Fs.render (d :: kc)) = d
  ∧ cwd w2 = d :: kc.
Proof.
  intros Hcd Hloc Hkc Hd Hnew w1 w2. pose proof Hloc as (Hnames & _ & _).
  assert (w1 = World (current_directory w) (cwd w)
                 (<[d :: kc := Dir]> (fs w)) (env w)) as Hw1.
  { subst w1. unfold _make_directory. run. simpl make_directories. run.
    rewrite (resolved_render d kc w) by done.
    assert (Fs.exists_ (fs w) (cwd w) (Fs.render (d :: kc)) = false) as ->.
    { unfold Fs.exists_, Fs.stat.
      rewrite resolve_render by (by apply located_cons). by rewrite Hnew. }
    run. rewrite os_makedirs_render by done. by run. }
  assert (located (fs w1) (d :: kc)) as Hloc1.
  { assert (d :: kc ≠ kc) as Hne
      by (intros Heq; apply (f_equal length) in Heq; simpl in Heq; lia).
    rewrite Hw1. simpl. apply located_cons; [| |done].
    - eapply located_keeps; [|exact Hloc].
      intros k' Hk'. rewrite lookup_insert_ne; [done|]. intros <-.
      rewrite Hnew in Hk'. discriminate.
    - by rewrite lookup_insert_ne. }
  assert (resolved (cd_argument [d] w1) w1 = Fs.render (d :: kc)) as Htarget.
  { apply resolved_render; [|done..]. by rewrite Hw1. }
  assert (w2 = World (Fs.render (d :: kc)) (d :: kc) (fs w1) (env w1)) as Hw2.
  { subst w2. rewrite (cd_run [d] w1 (d :: kc)); rewrite Htarget.
    - simpl. by rewrite normpath_render by (by constructor).
    - apply isabs_render.
    - apply stat_render; [done|]. rewrite Hw1. simpl. apply lookup_insert_eq. }
  split; [by rewrite Hw2|]. split; [by apply basename_render|by rewrite Hw2].
Qed.

Lemma not_below_shorter (k k' : list string) :
  (length k' < length k)%nat → ¬ Fs.below k k'.
Proof. intros Hlen [Hsuffix _]. apply suffix_length in Hsuffix. lia. Qed.

Lemma remove_below_shorter (files : gmap (list string) node) k k' :
  (length k' ≤ length k)%nat →
  Fs.remove_below files k !! k' = files !! k'.
Proof.
  intros Hlen. unfold Fs.remove_below.
  destruct (files !! k') as [n|] eqn:Hk'.
  - apply map_lookup_filter_Some. split; [done|]. simpl.
    intros [Hsuffix Hne]. apply Hne.
    destruct Hsuffix as [l ->]. destruct l; [done|].
    rewrite length_app in Hlen. simpl in Hlen. lia.
  - apply map_lookup_filter_None. by left.
Qed.

Lemma chain_remove_below (files : gmap (list string) node) k : ∀ k',
  (length k' ≤ length k)%nat → chain files k' →
  chain (Fs.remove_below files k) k'.
Proof.
  induction k' as [|x k' IH]; [done|]. simpl. intros Hlen [Hk' Hchain].
  split; [|apply IH; [lia|done]].
  rewrite remove_below_shorter by lia. done.
Qed.

Lemma children_remove_below (files : gmap (list string) node) k :
  Fs.children (Fs.remove_below files k) k = [].
Proof.
  apply elem_of_nil_inv. intros n Hn. unfold Fs.children in Hn.
  apply list_elem_of_omap in Hn as ([k' x] & Hin & Hchild).
  apply elem_of_map_to_list in Hin. unfold Fs.remove_below in Hin.
  apply map_lookup_filter_Some in Hin as [_ Hkeep]. simpl in Hkeep.
  unfold Fs.child_of in Hchild. simpl in Hchild.
  destruct k' as [|m parent]; [done|]. case_bool_decide; [|done]. subst parent.
  apply Hkeep. split; [by apply suffix_cons_r|].
  intros Heq. apply (f_equal length) in Heq. simpl in Heq. lia.
Qed.

Lemma lookup_removed_tree (files : gmap (list string) node) k k' :
  delete k (Fs.remove_below files k) !! k'
  = if bool_decide (k `suffix_of` k') then None else files !! k'.
Proof.
  destruct (decide (k = k')) as [<-|Hne].
  - by rewrite lookup_delete_eq, bool_decide_eq_true_2.
  - rewrite lookup_delete_ne by done. unfold Fs.remove_below.
    case_bool_decide as Hsuffix.
    + apply map_lookup_filter_None. right. intros n _ Hkeep. by apply Hkeep.
    + destruct (files !! k') as [n|] eqn:Hk'.
      * apply map_lookup_filter_Some. split; [done|]. by intros [? _].
      * apply map_lookup_filter_None. by left.
Qed.

(** X16. [rm -r] of a directory named by its own path removes the
    directory with everything below it and nothing else, reports it
    under the name as typed, and moves neither directory of the
    session. *)
Theorem rm_recursive_removes_tree (d : string) (k : list string) w :
  located (fs w) (d :: k) → fs w !! (d :: k) = Some Dir →
  ∃ w',
    _remove_file ["-r"; Fs.render (d :: k)] w
    = (inr (ok ("Removed: directory '" +:+ Fs.render (d :: k)
                +:+ "' and its contents")), w')
    ∧ current_directory w' = current_directory w
    ∧ cwd w' = cwd w
    ∧ ∀ k', fs w' !! k'
            = if bool_decide ((d :: k) `suffix_of` k') then None
              else fs w !! k'.
Proof.
  intros Hloc Hdir. pose proof Hloc as (Hnames & Hchain & Hroot).
  apply Forall_cons in Hnames as [Hd Hnames].
  pose proof Hd as [(Hne & Hdot & Hup) _].
  set (p := Fs.render (d :: k)).
  pose proof (stat_render (fs w) (cwd w) (d :: k) Dir Hloc Hdir) as Hstat.
  fold p in Hstat.
  exists (World (current_directory w) (cwd w)
            (delete (d :: k) (Fs.remove_below (fs w) (d :: k))) (env w)).
  split; [|split; [done|split; [done|intros k'; apply lookup_removed_tree]]].
  unfold _remove_file.
  assert (filter (λ arg, Str.startswith arg "-" = false) ["-r"; p] = [p]) as ->.
  { rewrite filter_cons_False by (by intros ?).
    rewrite filter_cons_True by done. done. }
  simpl remove_files. run.
  assert (resolved p w = p) as ->
    by (unfold resolved, p; by rewrite isabs_render).
  rewrite (stat_exists _ _ _ _ _ Hstat). run. cbn [andb negb]. run.
  rewrite (stat_isdir _ _ _ _ Hstat). run. cbn [orb]. run.
  unfold shutil_rmtree. run. rewrite Hstat. unfold set_fs. run.
  unfold os_rmdir. run. simpl.
  assert (located (Fs.remove_below (fs w) (d :: k)) (d :: k)) as Hloc'.
  { split; [by constructor|]. split.
    - by apply chain_remove_below.
    - rewrite remove_below_shorter by (simpl; lia). done. }
  unfold p at 1. rewrite (stat_render _ _ _ Dir Hloc')
    by (by rewrite remove_below_shorter).
  rewrite (bool_decide_eq_false_2 (Fs.last_component p = "."))
    by (unfold p; by rewrite last_component_render).
  rewrite (bool_decide_eq_false_2 (d :: k = [])) by done.
  rewrite children_remove_below. simpl. unfold set_fs. by run.
Qed.

End Trees.

(** ** Listing a directory *)

Section Listing.

Context {Env : Type} `{!Host Env}.

Implicit Types (w : world Env).

Lemma elem_of_children (files : gmap (list string) node) k n :
  n ∈ Fs.children files k ↔ is_Some (files !! (n :: k)).
Proof.
  unfold Fs.children. rewrite list_elem_of_omap. split.
  - intros ([k' x] & Hin & Hchild). apply elem_of_map_to_list in Hin.
    unfold Fs.child_of in Hchild. simpl in Hchild.
    destruct k' as [|m parent]; [done|]. case_bool_decide; [|done].
    by simplify_eq.
  - intros [x Hx]. exists (n :: k, x). split; [by apply elem_of_map_to_list|].
    unfold Fs.child_of. simpl. by rewrite bool_decide_eq_true_2.
Qed.

Lemma NoDup_omap {A B : Type} (f : A → option B) (l : list A) :
  (∀ x y z, x ∈ l → y ∈ l → f x = Some z → f y = Some z → x = y) →
  NoDup l → NoDup (omap f l).
Proof.
  intros Hinj. induction 1 as [|x l Hx Hl IH]; simpl; [constructor|].
  assert (NoDup (omap f l)) as Hrest.
  { apply IH. intros a b z Ha Hb. apply Hinj; by right. }
  destruct (f x) as [z|] eqn:Hfx; [|done].
  constructor; [|done]. intros Hz.
  apply list_elem_of_omap in Hz as (y & Hy & Hfy).
  assert (x = y) as -> by (eapply Hinj; [by left|by right|done..]).
  done.
Qed.

Lemma NoDup_children (files : gmap (list string) node) k :
  NoDup (Fs.children files k).
Proof.
  apply NoDup_omap; [|apply NoDup_map_to_list].
  intros [k1 x1] [k2 x2] n H1 H2 Hc1 Hc2.
  apply elem_of_map_to_list in H1, H2.
  unfold Fs.child_of in Hc1, Hc2. simpl in Hc1, Hc2.
  destruct k1 as [|m1 p1]; [done|]. destruct k2 as [|m2 p2]; [done|].
  repeat case_bool_decide; try done. simplify_eq. done.
Qed.

#[local] Instance string_leb_total : Total (λ a b : string, Is_true (String.leb a b)).
Proof.
  intros a b. destruct (String.leb_total a b) as [H|H]; rewrite H; auto.
Qed.

Lemma list_entry_line k n w :
  located (fs w) k → fs w !! k = Some Dir →
  entry_name n → is_Some (fs w !! (n :: k)) →
  list_entry (Fs.render k) n w = (inr (ls_line (fs w) k n), w).
Proof.
  intros Hloc Hk Hn [x Hx]. pose proof Hloc as (Hnames & _ & _).
  unfold list_entry, ls_line. rewrite join_render by done. run.
  pose proof (stat_render (fs w) (cwd w) (n :: k) x
                (located_cons _ _ _ Hloc Hk Hn) Hx) as Hstat.
  rewrite Hx. destruct x as [content|].
  - rewrite (stat_file_not_dir _ _ _ _ _ Hstat). run.
    unfold os_path_getsize. run. rewrite Hstat. by run.
  - rewrite (stat_isdir _ _ _ _ Hstat). by run.
Qed.

Lemma list_entries_lines k w : ∀ names,
  located (fs w) k → fs w !! k = Some Dir →
  Forall (λ n, entry_name n ∧ is_Some (fs w !! (n :: k))) names →
  list_entries (Fs.render k) names w = (inr (ls_line (fs w) k <$> names), w).
Proof.
  intros names Hloc Hk. induction 1 as [|n names [Hn Hin] Hrest IH]; [done|].
  simpl list_entries. run. rewrite list_entry_line by done. run.
  rewrite IH. by run.
Qed.

(** X17. [ls] of a directory named by its own path (the first argument,
    or else the current directory) succeeds and changes nothing; its
    output has one line for every entry of the directory, in code-point
    order of the names, each with its kind and, for a file, its size;
    an empty directory gives [Directory is empty]. *)
Theorem ls_lists_directory (args : list string) (k : list string) w :
  match args with a :: _ => a | [] => current_directory w end = Fs.render k →
  located (fs w) k → fs w !! k = Some Dir →
  (∀ n, is_Some (fs w !! (n :: k)) → entry_name n) →
  let names := sorted (Fs.children (fs w) k) in
  _list_directory args w
  = (inr (ok (match names with
              | [] => "Directory is empty"
              | _ => Str.join Str.newline (ls_line (fs w) k <$> names)
              end)), w)
  ∧ (∀ n, n ∈ names ↔ is_Some (fs w !! (n :: k)))
  ∧ NoDup names
  ∧ Sorted (λ a b : string, Is_true (String.leb a b)) names.
Proof.
  intros Harg Hloc Hk Hnamed names.
  assert (names ≡ₚ Fs.children (fs w) k) as Hperm
    by apply merge_sort_Permutation.
  assert (∀ n, n ∈ names ↔ is_Some (fs w !! (n :: k))) as Hin
    by (intros n; by rewrite Hperm, elem_of_children).
  split; [|split; [done|split]].
  - pose proof (stat_render (fs w) (cwd w) k Dir Hloc Hk) as Hstat.
    unfold _list_directory. run. rewrite Harg.
    assert (resolved (Fs.render k) w = Fs.render k) as ->
      by (unfold resolved; by rewrite isabs_render).
    rewrite (stat_exists _ _ _ _ _ Hstat). run.
    rewrite (stat_isdir _ _ _ _ Hstat). run. rewrite Hstat. run.
    fold names. rewrite list_entries_lines; [|done..|].
    + run. by destruct names.
    + apply Forall_forall. intros n Hn. apply Hin in Hn. auto.
  - rewrite Hperm. apply NoDup_children.
  - apply Sorted_merge_sort, string_leb_total.
Qed.

End Listing.

(** ** Files in the current directory *)

Section Files.

Context {Env : Type} `{!Host Env}.

Implicit Types (w : world Env).

Lemma filter_names (names : list string) :
  Forall entry_name names →
  filter (λ c : string, c ≠ "" ∧ c ≠ ".") names = names.
Proof.
  induction 1 as [|n names [(Hne & Hdot & _) _] _ IH]; [done|].
  rewrite filter_cons_True by done. by rewrite IH.
Qed.

Lemma pathlib_str_render k :
  Forall entry_name k → pathlib_str (Fs.render k) = Fs.render k.
Proof.
  intros Hk. unfold pathlib_str. rewrite split_on_render by done.
  change (Fs.render k) with (String Path.sep (Str.join "/" (rev k))).
  rewrite startswith_double_sep, startswith_join by (by apply Forall_rev).
  change (Str.startswith (String Path.sep (Str.join "/" (rev k))) "/")
    with (String.prefix "" (Str.join "/" (rev k))).
  rewrite prefix_empty. cbn [andb].
  rewrite filter_cons_False by (intros [? _]; done).
  assert (filter (λ c : string, c ≠ "" ∧ c ≠ ".")
            match k with [] => [""] | _ => rev k end = rev k) as ->.
  { destruct k as [|x k]; [done|]. by apply filter_names, Forall_rev. }
  by rewrite bool_decide_eq_false_2.
Qed.

(** X18. [touch] of one name in a current directory named by its own
    path creates an empty file when nothing has the name, leaves an
    entry that has it as it is, and reports the creation in both
    cases. *)
Theorem touch_creates_or_keeps (d : string) (kc : list string) w :
  current_directory w = Fs.render kc →
  located (fs w) kc → fs w !! kc = Some Dir → entry_name d →
  _create_file [d] w
  = (inr (ok ("Created file(s): " +:+ d)),
     World (current_directory w) (cwd w)
       (match fs w !! (d :: kc) with
        | Some _ => fs w
        | None => <[d :: kc := File ""]> (fs w)
        end) (env w)).
Proof.
  intros Hcd Hloc Hkc Hd. pose proof Hloc as (Hnames & _ & _).
  pose proof (located_cons _ _ _ Hloc Hkc Hd) as Hloc'.
  unfold _create_file. run. simpl create_files. run.
  rewrite (resolved_render d kc w) by done.
  unfold Path_touch. run.
  rewrite pathlib_str_render by (by constructor).
  destruct (fs w !! (d :: kc)) as [n|] eqn:Hnew.
  - rewrite (stat_exists _ _ _ _ _ (stat_render _ (cwd w) _ n Hloc' Hnew)).
    run. by destruct w.
  - assert (Fs.exists_ (fs w) (cwd w) (Fs.render (d :: kc)) = false) as ->.
    { unfold Fs.exists_, Fs.stat. by rewrite resolve_render, Hnew. }
    rewrite resolve_render by done. unfold set_fs. by run.
Qed.

Lemma read_text_plain content : plain content → read_text content = Some content.
Proof.
  unfold read_text. induction content as [|c content IH]; [done|].
  intros (Hascii & Hcr & Hplain). specialize (IH Hplain). simpl.
  rewrite (proj2 (Nat.ltb_lt _ _) Hascii).
  destruct (Str.decode_ignore content) as [decoded|]; [|done].
  simpl in IH. simpl. rewrite (proj2 (Nat.eqb_neq _ _) Hcr).
  by simplify_eq.
Qed.

(** X19. [cat] of a file of the current directory, when this is named
    by its own path and the file holds plain text (bytes of ASCII, no
    carriage return), returns the content of the file as it is and
    changes nothing. *)
Theorem cat_reads_file (d content : string) (rest kc : list string) w :
  current_directory w = Fs.render kc →
  located (fs w) kc → fs w !! kc = Some Dir → entry_name d →
  fs w !! (d :: kc) = Some (File content) →
  plain content →
  _show_file_content (d :: rest) w = (inr (ok content), w).
Proof.
  intros Hcd Hloc Hkc Hd Hfile Hplain. pose proof Hloc as (Hnames & _ & _).
  pose proof (stat_render _ (cwd w) _ _ (located_cons _ _ _ Hloc Hkc Hd) Hfile)
    as Hstat.
  unfold _show_file_content. run.
  rewrite (resolved_render d kc w) by done.
  rewrite (stat_exists _ _ _ _ _ Hstat). run.
  rewrite (stat_file_not_dir _ _ _ _ _ Hstat). run.
  unfold open_text. run. rewrite Hstat, (read_text_plain _ Hplain). by run.
Qed.

Lemma isdir_render_not_dir (files : gmap (list string) node) c k :
  located files k → files !! k ≠ Some Dir →
  Fs.isdir files c (Fs.render k) = false.
Proof.
  intros Hloc Hk. unfold Fs.isdir, Fs.stat. rewrite resolve_render by done.
  by destruct (files !! k) as [[|]|].
Qed.

(** X20. [cp a b] in a current directory named by its own path, where
    [a] is a file and [b] another name that is not a directory, writes
    the content of [a] to [b] and touches nothing else: [a] keeps its
    content, and what [b] held before is lost. *)
Theorem cp_copies_file (a b content : string) (rest kc : list string) w :
  current_directory w = Fs.render kc →
  located (fs w) kc → fs w !! kc = Some Dir →
  entry_name a → entry_name b → a ≠ b →
  fs w !! (a :: kc) = Some (File content) →
  fs w !! (b :: kc) ≠ Some Dir →
  _copy_file (a :: b :: rest) w
  = (inr (ok ("Copied '" +:+ a +:+ "' to '" +:+ b +:+ "'")),
     World (current_directory w) (cwd w)
       (<[b :: kc := File content]> (fs w)) (env w)).
Proof.
  intros Hcd Hloc Hkc Ha Hb Hab Hfile Hdst.
  pose proof Hloc as (Hnames & _ & _).
  pose proof (located_cons _ _ _ Hloc Hkc Ha) as Hloca.
  pose proof (located_cons _ _ _ Hloc Hkc Hb) as Hlocb.
  pose proof (stat_render _ (cwd w) _ _ Hloca Hfile) as Hstat.
  unfold _copy_file. run.
  rewrite (resolved_render a kc w), (resolved_render b kc w) by done.
  rewrite (stat_exists _ _ _ _ _ Hstat). run.
  rewrite (stat_file_not_dir _ _ _ _ _ Hstat). run.
  unfold shutil_copy2. run.
  rewrite (isdir_render_not_dir _ _ _ Hlocb Hdst). run. rewrite Hstat.
  assert (∀ w0 : world Env,
            match Fs.stat (fs w) (cwd w) (Fs.render (b :: kc)) with
            | inr (kd, _) =>
                if bool_decide (a :: kc = kd)
                then raise (ShutilError
                              ("'" +:+ Fs.render (a :: kc) +:+ "' and '"
                               +:+ Fs.render (b :: kc)
                               +:+ "' are the same file"))
                else mret tt
            | inl _ => mret tt
            end w0 = (inr tt, w0)) as Hsame.
  { intros w0. unfold Fs.stat. rewrite resolve_render by done.
    destruct (fs w !! (b :: kc)); [|done].
    rewrite bool_decide_eq_false_2; [done|]. by intros [= ?]. }
  rewrite Hsame. run. unfold open_read. run. rewrite Hstat. run.
  rewrite resolve_render by done. unfold set_fs.
  destruct (fs w !! (b :: kc)) as [[|]|]; try done; by run.
Qed.

(** X21. [mv a b] in a current directory named by its own path, where
    [a] is a file and [b] another name that is not a directory, renames
    the file: [b] holds the content, [a] is gone, and nothing else
    changes. *)
Theorem mv_renames_file (a b content : string) (rest kc : list string) w :
  current_directory w = Fs.render kc →
  located (fs w) kc → fs w !! kc = Some Dir →
  entry_name a → entry_name b → a ≠ b →
  fs w !! (a :: kc) = Some (File content) →
  fs w !! (b :: kc) ≠ Some Dir →
  _move_file (a :: b :: rest) w
  = (inr (ok ("Moved '" +:+ a +:+ "' to '" +:+ b +:+ "'")),
     World (current_directory w) (cwd w)
       (<[b :: kc := File content]> (delete (a :: kc) (fs w))) (env w)).
Proof.
  intros Hcd Hloc Hkc Ha Hb Hab Hfile Hdst.
  pose proof Hloc as (Hnames & _ & _).
  pose proof Ha as [(_ & Hdot & Hup) _].
  pose proof (located_cons _ _ _ Hloc Hkc Ha) as Hloca.
  pose proof (located_cons _ _ _ Hloc Hkc Hb) as Hlocb.
  pose proof (stat_render _ (cwd w) _ _ Hloca Hfile) as Hstat.
  unfold _move_file. run.
  rewrite (resolved_render a kc w), (resolved_render b kc w) by done.
  rewrite (stat_exists _ _ _ _ _ Hstat). run.
  unfold shutil_move. run.
  rewrite (isdir_render_not_dir _ _ _ Hlocb Hdst). run.
  unfold samefile. run. rewrite Hstat.
  assert (match Fs.stat (fs w) (cwd w) (Fs.render (b :: kc)) with
          | inr (kd, _) => inr (bool_decide (a :: kc = kd))
          | inl _ => inr false
          end = (inr false : exn + bool)) as ->.
  { unfold Fs.stat. rewrite resolve_render by done.
    destruct (fs w !! (b :: kc)); [|done].
    rewrite bool_decide_eq_false_2; [done|]. by intros [= ?]. }
  run. cbn [andb]. run. unfold os_rename. run. rewrite Hstat.
  rewrite resolve_render by done.
  rewrite (bool_decide_eq_false_2 (a :: kc = b :: kc)) by (by intros [= ?]).
  rewrite (last_component_render a kc) by done.
  rewrite !bool_decide_eq_false_2 by done. cbn [orb].
  unfold set_fs.
  destruct (fs w !! (b :: kc)) as [[|]|]; try done; by run.
Qed.

End Files.

(** ** Searching *)

Section Searching.

Context {Env : Type} `{!Host Env}.

Implicit Types (w : world Env).

Lemma walk_tree_outside_directory depth w top :
  Fs.isdir (fs w) (cwd w) top = false → walk_tree depth w top = [].
Proof.
  intros Hdir. destruct depth as [|depth]; [done|]. simpl.
  unfold Fs.isdir in Hdir.
  by destruct (Fs.stat (fs w) (cwd w) top) as [e|[k [content|]]].
Qed.

(** X22. [find] on a search path (the second argument, or else the
    current directory) that is missing or is a file does not fail: it
    succeeds with [No files found matching pattern] and changes
    nothing. *)
Theorem find_outside_directory (pattern : string) (more : list string) w :
  Fs.isdir (fs w) (cwd w)
    (resolved (match more with a1 :: _ => a1 | [] => current_directory w end) w)
  = false →
  _find_files (pattern :: more) w
  = (inr (ok "No files found matching pattern"), w).
Proof.
  intros Hdir. unfold _find_files. run. unfold os_walk. run.
  rewrite walk_tree_outside_directory by done. by run.
Qed.

Lemma grep_file_list_non_file pattern filepath w :
  Fs.isfile (fs w) (cwd w) filepath = false →
  grep_file_list pattern [filepath] w = (inr [], w).
Proof.
  intros Hfile. simpl grep_file_list. unfold os_path_isfile. run.
  rewrite Hfile. by run.
Qed.

(** X23. [grep] over names without [*] that are missing or are
    directories does not fail: every such name is passed over, the
    result is a success with [No matches found], and nothing
    changes. *)
Theorem grep_skips_non_files (pattern : string) (files : list string) w :
  files ≠ [] →
  Forall (λ file, Str.contains file "*" = false
                  ∧ Fs.isfile (fs w) (cwd w) (resolved file w) = false) files →
  _grep_files (pattern :: files) w = (inr (ok "No matches found"), w).
Proof.
  intros Hne Hall.
  assert (grep_patterns pattern files w = (inr [], w)) as Hnone.
  { clear Hne. induction Hall as [|file files [Hstar Hfile] _ IH]; [done|].
    simpl grep_patterns. run. rewrite Hstar.
    destruct (Fs.exists_ (fs w) (cwd w) (resolved file w)).
    - rewrite grep_file_list_non_file by done. run. rewrite IH. by run.
    - simpl grep_file_list. run. rewrite IH. by run. }
  unfold _grep_files. run. destruct files as [|file files]; [done|].
  rewrite Hnone. by run.
Qed.

End Searching.

(** ** The terminal *)

Section Session.

Context {Env : Type} `{!Host Env}.

Implicit Types (w : world Env).

Lemma rstrip_idem s : Str.rstrip (Str.rstrip s) = Str.rstrip s.
Proof.
  induction s as [|c s IH]; [done|]. simpl.
  destruct (Str.rstrip s) as [|c' r] eqn:Hr.
  - destruct (Str.isspace c) eqn:Hc; [done|]. simpl. by rewrite Hc.
  - simpl in IH. simpl. by rewrite IH.
Qed.

Lemma strip_idem s : Str.strip (Str.strip s) = Str.strip s.
Proof.
  unfold Str.strip.
  destruct (lstrip_head s) as [->|(c & s' & -> & Hc)]; [done|].
  destruct (rstrip_head c s' Hc) as [r Hr].
  rewrite Hr, (lstrip_token_start c r Hc), <- Hr. apply rstrip_idem.
Qed.

Lemma parse_strip s : _parse_command (Str.strip s) = _parse_command s.
Proof. unfold _parse_command. by rewrite strip_idem. Qed.

Lemma execute_returns line w : ∃ r w', execute_command line w = (inr r, w').
Proof.
  unfold execute_command, execute_command_with. rewrite run_try.
  match goal with |- context [match ?b w with _ => _ end] =>
    destruct (b w) as [[e|r] w'] end; simpl; eauto.
Qed.



(** X25. Blank lines and Ctrl+C are passed over: without them the
    session ends in the same state with the same world (printing the
    hint for Ctrl+C is taken to succeed). *)
Theorem run_passes_over_quiet_inputs (inputs : list entered) w :
  let heeded := filter (λ input, significant input = true) inputs in
  (run inputs w).1.2 = (run heeded w).1.2
  ∧ (run inputs w).2 = (run heeded w).2.
Proof.
  revert w. induction inputs as [|input inputs IH]; intros w; [done|].
  destruct input as [user_input| |].
  - destruct (decide (Str.strip user_input = "")) as [Hblank|Hline].
    + cbv zeta. rewrite filter_cons_False
        by (simpl; rewrite bool_decide_eq_true_2 by done; done).
      simpl. rewrite bool_decide_eq_true_2 by done.
      specialize (IH w). simpl in IH.
      by destruct (run inputs w) as [[actions st] w1].
    + cbv zeta. rewrite filter_cons_True
        by (simpl; by rewrite bool_decide_eq_false_2).
      simpl. rewrite bool_decide_eq_false_2 by done.
      destruct (execute_command (Str.strip user_input) w) as [[e|r] w1];
        [done|].
      case_bool_decide; [done|].
      specialize (IH w1). simpl in IH.
      destruct (run inputs w1) as [[actions st] w2].
      by destruct (run _ w1) as [[actions3 st3] w3].
  - cbv zeta. rewrite filter_cons_False by done. simpl.
    specialize (IH w). simpl in IH.
    by destruct (run inputs w) as [[actions st] w1].
  - cbv zeta. rewrite filter_cons_True by done. done.
Qed.


Lemma elem_of_commands (c : string) :
  c ∈ commands ↔ is_Some (supported_commands !! c).
Proof.
  split.
  - intros Hin. unfold commands in Hin.
    repeat (apply elem_of_cons in Hin as [->|Hin]; [by vm_compute; eauto|]).
    by apply elem_of_nil in Hin.
  - intros [h Hh]. unfold supported_commands in Hh.
    apply elem_of_list_to_map_2 in Hh.
    repeat (apply elem_of_cons in Hh as [[= -> _]|Hh];
            [unfold commands; by repeat constructor|]).
    by apply elem_of_nil in Hh.
Qed.

(** X27. At the first word of the input (one word with no space after
    it, or nothing typed) the completions are exactly the names of the
    built-in commands that begin with the word in lower case, each
    replacing the whole word. *)
Theorem completions_of_command (text word : string) w (item : Completion) :
  Str.split text = [] ∧ word = ""
  ∨ Str.split text = [word] ∧ Str.endswith text " " = false →
  item ∈ get_completions text w
  ↔ is_Some (supported_commands !! completion_text item)
    ∧ Str.startswith (completion_text item) (Str.lower word) = true
    ∧ start_position item = (- Z.of_nat (String.length word))%Z.
Proof.
  intros Hpos.
  assert (get_completions text w
          = (λ command, MkCompletion command (- Z.of_nat (String.length word)))
              <$> filter (λ command,
                            Str.startswith command (Str.lower word) = true)
                         commands) as ->.
  { unfold get_completions.
    destruct Hpos as [[-> ->]|[-> Hend]]; [done|]. by rewrite Hend. }
  rewrite list_elem_of_fmap. split.
  - intros (c & -> & Hc). apply list_elem_of_filter in Hc as [Hstart Hc].
    by apply elem_of_commands in Hc.
  - intros (Hc & Hstart & Hpos'). exists (completion_text item). split.
    + destruct item as [c p]. simpl in *. by rewrite Hpos'.
    + apply list_elem_of_filter. split; [done|]. by apply elem_of_commands.
Qed.

(** X28. After the first word (a second word begun, or a space typed
    after the first) the completer offers nothing, whatever the files
    are: the path completions are computed by a generator that is never
    iterated. *)
Theorem no_completion_of_arguments
    (text word : string) (more : list string) w :
  Str.split text = word :: more →
  more ≠ [] ∨ Str.endswith text " " = true →
  get_completions text w = [].
Proof.
  intros Hsplit Hpos. unfold get_completions. rewrite Hsplit.
  rewrite bool_decide_eq_false_2 by done.
  destruct Hpos as [Hmore| ->].
  - destruct more; [done|]. by rewrite bool_decide_eq_false_2.
  - by rewrite andb_false_r.
Qed.

End Session.

(** ** The standalone handler and the entry point *)

Section Fallback.

Context {Env : Type} `{!Host Env}.

Implicit Types (w : world Env).

Lemma standalone_lookup (c : string) :
  standalone_commands !! c
  = if bool_decide (c ∈ ["ps"; "grep"; "top"]) then None
    else supported_commands !! c.
Proof.
  assert (standalone_commands
          = delete "ps" (delete "grep" (delete "top" supported_commands)))
    as -> by (vm_compute; reflexivity).
  case_bool_decide as Hc.
  - repeat (apply elem_of_cons in Hc as [->|Hc]; [by vm_compute|]).
    by apply elem_of_nil in Hc.
  - rewrite !lookup_delete_ne; [done|..]; intros <-; apply Hc;
      by repeat constructor.
Qed.

Lemma help_is_show_help (c : string) :
  supported_commands !! c = Some show_help → c = "help".
Proof.
  intros Hc. unfold supported_commands in Hc.
  apply elem_of_list_to_map_2 in Hc.
  repeat (apply elem_of_cons in Hc as [Heq|Hc]; [by simplify_eq|]).
  by apply elem_of_nil in Hc.
Qed.

Lemma call_standalone_other h :
  h ≠ show_help →
  call_standalone h = (call h : list string -> M Env result).
Proof. by destruct h. Qed.

Lemma host_returns command_line w :
  ∃ r, _execute_system_command command_line w
       = (inr r, World (current_directory w) (cwd w)
                   (subprocess_run command_line (current_directory w) (fs w)
                      (env w)).1.2
                   (subprocess_run command_line (current_directory w) (fs w)
                      (env w)).2).
Proof.
  unfold _execute_system_command.
  destruct (subprocess_run _ _ _ _) as [[outcome files] env'].
  destruct outcome; by eexists.
Qed.

(** X29. The handler without dependencies answers as the full one
    does, result and world, on every line whose command is not [ps],
    [grep], [top] or [help]. These three commands it does not know and
    hands to the host's interpreter; [help] returns its own text. *)
Theorem standalone_agrees
    (command_line first : string) (args : list string) w :
  _parse_command command_line = first :: args →
  execute_command_standalone command_line w
  = if bool_decide (Str.lower first ∈ ["ps"; "grep"; "top"])
    then _execute_system_command command_line w
    else if bool_decide (Str.lower first = "help")
    then (inr (ok (Str.strip help_text_standalone)), w)
    else execute_command command_line w.
Proof.
  intros Hparse. unfold execute_command_standalone, execute_command.
  rewrite !(execute_dispatch _ _ _ _ Hparse), !run_try, !lookup_fmap,
    standalone_lookup.
  case_bool_decide as Hhost.
  - simpl. by destruct (host_returns command_line w) as [r ->].
  - case_bool_decide as Hhelp.
    + rewrite Hhelp. reflexivity.
    + destruct (supported_commands !! Str.lower first) as [h|] eqn:Hh; simpl.
      * rewrite call_standalone_other; [done|].
        intros ->. by apply help_is_show_help in Hh.
      * done.
Qed.

Lemma standalone_same_outcome command_line w :
  command_word command_line ∉ ["ps"; "grep"; "top"] →
  ∃ r r' w',
    execute_command command_line w = (inr r, w')
    ∧ execute_command_standalone command_line w = (inr r', w')
    ∧ (output r' = "exit" ↔ output r = "exit").
Proof.
  intros Hword. unfold command_word in Hword.
  destruct (_parse_command command_line) as [|first args] eqn:Hparse.
  - apply parse_blank_iff in Hparse.
    unfold execute_command_standalone, execute_command, execute_command_with.
    rewrite !run_try, !bool_decide_eq_true_2 by done.
    by eexists _, _, _.
  - unfold execute_command_standalone, execute_command.
    rewrite !(execute_dispatch _ _ _ _ Hparse), !run_try, !lookup_fmap,
      standalone_lookup, bool_decide_eq_false_2 by done.
    destruct (supported_commands !! Str.lower first) as [h|] eqn:Hh; simpl.
    + destruct (decide (h = show_help)) as [->|Hother].
      * eexists _, _, _. repeat split; try reflexivity; simpl;
          intros Hexit; vm_compute in Hexit; discriminate.
      * rewrite call_standalone_other by done.
        destruct (call_returns h args w) as (r & w' & ->).
        by eexists _, _, _.
    + destruct (host_returns command_line w) as [r ->]. by eexists _, _, _.
Qed.

(** X30. The fall-back loop of [index.py] and the terminal go through
    the same session: on inputs that use none of [ps], [grep] and [top]
    (which only the full handler knows) both end in the same state, at
    the prompt or returned, with the same world. *)
Theorem fallback_follows_terminal (inputs : list entered) w :
  Forall (λ input, ∀ command, input = Line command →
            command_word command ∉ ["ps"; "grep"; "top"]) inputs →
  (index_fallback inputs w).1.2 = (index inputs w).1.2
  ∧ (index_fallback inputs w).2 = (index inputs w).2.
Proof.
  intros Hall.
  assert ((fallback_loop inputs w).1.2 = (run inputs w).1.2
          ∧ (fallback_loop inputs w).2 = (run inputs w).2) as Hloops.
  { revert w. induction Hall as [|input inputs Hinput _ IH]; intros w;
      [done|].
    destruct input as [command| |].
    - simpl. case_bool_decide as Hblank.
      + specialize (IH w).
        destruct (fallback_loop inputs w) as [[actions st] w1].
        by destruct (run inputs w) as [[actions' st'] w1'].
      + specialize (Hinput command eq_refl).
        unfold command_word in Hinput. rewrite <- parse_strip in Hinput.
        destruct (standalone_same_outcome (Str.strip command) w Hinput)
          as (r & r' & w1 & -> & -> & Hexit).
        destruct (decide (output r = "exit")) as [Hr|Hr].
        * by rewrite !(bool_decide_eq_true_2 (output r' = "exit")),
            !(bool_decide_eq_true_2 (output r = "exit")) by tauto.
        * rewrite !(bool_decide_eq_false_2 (output r' = "exit")),
            !(bool_decide_eq_false_2 (output r = "exit")) by tauto.
          specialize (IH w1).
          destruct (fallback_loop inputs w1) as [[actions st] w2].
          by destruct (run inputs w1) as [[actions' st'] w2'].
    - simpl. specialize (IH w).
      destruct (fallback_loop inputs w) as [[actions st] w1].
      by destruct (run inputs w) as [[actions' st'] w1'].
    - done. }
  unfold index_fallback, index.
  destruct (fallback_loop inputs w) as [[actions st] w1].
  by destruct (run inputs w) as [[actions' st'] w1'].
Qed.

End Fallback.

(** ** The properties on the sample host *)

Ltac evaluated :=
  vm_compute;
  repeat first [split | apply Forall_nil_2 | apply Forall_cons_2];
  first [reflexivity | discriminate | exact I].

Lemma rm_flags_only_witness :
  Forall (λ arg, Str.startswith arg "-" = true) ["-r"; "-f"]
  ∧ _remove_file ["-r"; "-f"] sample_world
    = (inr (failure "rm: missing file/directory name"), sample_world).
Proof.
  split; [evaluated|].
  apply (rm_flags_only ["-r"; "-f"] sample_world). evaluated.
Defined.

Lemma rm_directory_needs_r_witness :
  filter (λ arg, Str.startswith arg "-" = false) ["-fr"; "d"] = ["d"]
  ∧ ("-r" ∉ ["-fr"; "d"]) ∧ ("-rf" ∉ ["-fr"; "d"])
  ∧ Fs.stat (fs sample_world) (cwd sample_world) (resolved "d" sample_world)
    = inr (["d"; "u"; "home"], Dir)
  ∧ _remove_file ["-fr"; "d"] sample_world
    = (inr (failure ("'" +:+ resolved "d" sample_world
                     +:+ "' is a directory. Use -r flag to remove directories")),
       sample_world).
Proof.
  split; [vm_compute; reflexivity|]. split; [compute_done|].
  split; [compute_done|]. split; [vm_compute; reflexivity|].
  apply (rm_directory_needs_r ["-fr"; "d"] [] "d" sample_world
           ["d"; "u"; "home"]);
    [vm_compute; reflexivity|compute_done|compute_done|vm_compute; reflexivity].
Defined.

Lemma rm_missing_reported_witness :
  filter (λ arg, Str.startswith arg "-" = false) ["-r"; "nope"] = ["nope"]
  ∧ ("-f" ∉ ["-r"; "nope"]) ∧ ("-rf" ∉ ["-r"; "nope"])
  ∧ Fs.exists_ (fs sample_world) (cwd sample_world)
      (resolved "nope" sample_world) = false
  ∧ _remove_file ["-r"; "nope"] sample_world
    = (inr (failure ("File/directory '" +:+ resolved "nope" sample_world
                     +:+ "' does not exist")),
       sample_world).
Proof.
  split; [vm_compute; reflexivity|]. split; [compute_done|].
  split; [compute_done|]. split; [vm_compute; reflexivity|].
  apply (rm_missing_reported ["-r"; "nope"] [] "nope" sample_world);
    [vm_compute; reflexivity|compute_done|compute_done|vm_compute; reflexivity].
Defined.

Lemma rm_removes_file_witness :
  filter (λ arg, Str.startswith arg "-" = false) ["-f"; "d/f"] = ["d/f"]
  ∧ Fs.stat (fs sample_world) (cwd sample_world) (resolved "d/f" sample_world)
    = inr (["f"; "d"; "u"; "home"], File ("hello" +:+ Str.newline +:+ "world"))
  ∧ _remove_file ["-f"; "d/f"] sample_world
    = (inr (ok ("Removed: file '" +:+ "d/f" +:+ "'")),
       World (current_directory sample_world) (cwd sample_world)
         (delete ["f"; "d"; "u"; "home"] (fs sample_world))
         (env sample_world)).
Proof.
  split; [vm_compute; reflexivity|]. split; [vm_compute; reflexivity|].
  apply (rm_removes_file ["-f"; "d/f"] "d/f" sample_world
           ["f"; "d"; "u"; "home"] ("hello" +:+ Str.newline +:+ "world"));
    vm_compute; reflexivity.
Defined.

Lemma rmdir_removes_empty_witness :
  Fs.stat (fs sample_world) (cwd sample_world) (resolved "e" sample_world)
  = inr (["e"; "u"; "home"], Dir)
  ∧ Fs.children (fs sample_world) ["e"; "u"; "home"] = []
  ∧ ["e"; "u"; "home"] ≠ []
  ∧ Fs.last_component (resolved "e" sample_world) ≠ "."
  ∧ _remove_directory ["e"] sample_world
    = (inr (ok ("Removed directory(s): " +:+ "e")),
       World (current_directory sample_world) (cwd sample_world)
         (delete ["e"; "u"; "home"] (fs sample_world)) (env sample_world)).
Proof.
  split; [vm_compute; reflexivity|]. split; [vm_compute; reflexivity|].
  split; [discriminate|]. split; [vm_compute; discriminate|].
  apply (rmdir_removes_empty "e" sample_world ["e"; "u"; "home"]);
    [vm_compute; reflexivity|vm_compute; reflexivity|discriminate
    |vm_compute; discriminate].
Defined.


Lemma mkdir_creates_witness :
  current_directory sample_world = Fs.render ["u"; "home"]
  ∧ located (fs sample_world) ["u"; "home"]
  ∧ fs sample_world !! ["u"; "home"] = Some Dir
  ∧ entry_name "new"
  ∧ fs sample_world !! ["new"; "u"; "home"] = None
  ∧ _make_directory ["new"] sample_world
    = (inr (ok ("Created directory(s): " +:+ "new")),
       World (current_directory sample_world) (cwd sample_world)
         (<[["new"; "u"; "home"] := Dir]> (fs sample_world))
         (env sample_world)).
Proof.
  split; [evaluated|]. split; [evaluated|]. split; [evaluated|].
  split; [evaluated|]. split; [evaluated|].
  apply (mkdir_creates "new" ["u"; "home"] sample_world); evaluated.
Defined.

Lemma mkdir_cd_pwd_witness :
  current_directory sample_world = Fs.render ["u"; "home"]
  ∧ located (fs sample_world) ["u"; "home"]
  ∧ fs sample_world !! ["u"; "home"] = Some Dir
  ∧ entry_name "new"
  ∧ fs sample_world !! ["new"; "u"; "home"] = None
  ∧ let w1 := (_make_directory ["new"] sample_world).2 in
    let w2 := (_change_directory ["new"] w1).2 in
    _print_working_directory [] w2
    = (inr (ok (Fs.render ["new"; "u"; "home"])), w2)
    ∧ Path.basename (Fs.render ["new"; "u"; "home"]) = "new"
    ∧ cwd w2 = ["new"; "u"; "home"].
Proof.
  split; [evaluated|]. split; [evaluated|]. split; [evaluated|].
  split; [evaluated|]. split; [evaluated|].
  apply (mkdir_cd_pwd "new" ["u"; "home"] sample_world); evaluated.
Defined.

Lemma rm_recursive_removes_tree_witness :
  located (fs sample_world) ["d"; "u"; "home"]
  ∧ fs sample_world !! ["d"; "u"; "home"] = Some Dir
  ∧ ∃ w',
      _remove_file ["-r"; Fs.render ["d"; "u"; "home"]] sample_world
      = (inr (ok ("Removed: directory '" +:+ Fs.render ["d"; "u"; "home"]
                  +:+ "' and its contents")), w')
      ∧ current_directory w' = current_directory sample_world
      ∧ cwd w' = cwd sample_world
      ∧ ∀ k', fs w' !! k'
              = if bool_decide (["d"; "u"; "home"] `suffix_of` k') then None
                else fs sample_world !! k'.
Proof.
  split; [evaluated|]. split; [evaluated|].
  apply (rm_recursive_removes_tree "d" ["u"; "home"] sample_world); evaluated.
Defined.

Lemma ls_lists_directory_witness :
  current_directory sample_world = Fs.render ["u"; "home"]
  ∧ located (fs sample_world) ["u"; "home"]
  ∧ fs sample_world !! ["u"; "home"] = Some Dir
  ∧ (∀ n, is_Some (fs sample_world !! [n; "u"; "home"]) → entry_name n)
  ∧ _list_directory [] sample_world
    = (inr (ok ("[DIR]  d" +:+ Str.newline +:+ "[DIR]  e")), sample_world).
Proof.
  assert (∀ n, is_Some (fs sample_world !! [n; "u"; "home"]) → entry_name n)
    as Hnamed.
  { intros n [x Hx]. apply elem_of_list_to_map_2 in Hx.
    repeat (apply elem_of_cons in Hx as [Heq|Hx]; [simplify_eq; evaluated|]).
    by apply elem_of_nil in Hx. }
  split; [evaluated|]. split; [evaluated|]. split; [evaluated|].
  split; [exact Hnamed|].
  destruct (ls_lists_directory [] ["u"; "home"] sample_world) as [Hrun _];
    [evaluated..|exact Hnamed|].
  rewrite Hrun. vm_compute. reflexivity.
Defined.

Lemma touch_creates_or_keeps_witness :
  current_directory sample_world = Fs.render ["u"; "home"]
  ∧ located (fs sample_world) ["u"; "home"]
  ∧ fs sample_world !! ["u"; "home"] = Some Dir
  ∧ entry_name "new"
  ∧ _create_file ["new"] sample_world
    = (inr (ok ("Created file(s): " +:+ "new")),
       World (current_directory sample_world) (cwd sample_world)
         (match fs sample_world !! ["new"; "u"; "home"] with
          | Some _ => fs sample_world
          | None => <[["new"; "u"; "home"] := File ""]> (fs sample_world)
          end) (env sample_world)).
Proof.
  split; [evaluated|]. split; [evaluated|]. split; [evaluated|].
  split; [evaluated|].
  apply (touch_creates_or_keeps "new" ["u"; "home"] sample_world); evaluated.
Defined.

Lemma cat_reads_file_witness :
  let w := initial ["d"; "u"; "home"] sample_files tt in
  current_directory w = Fs.render ["d"; "u"; "home"]
  ∧ located (fs w) ["d"; "u"; "home"]
  ∧ fs w !! ["d"; "u"; "home"] = Some Dir
  ∧ entry_name "f"
  ∧ fs w !! ["f"; "d"; "u"; "home"]
    = Some (File ("hello" +:+ Str.newline +:+ "world"))
  ∧ plain ("hello" +:+ Str.newline +:+ "world")
  ∧ _show_file_content ["f"; "g"] w
    = (inr (ok ("hello" +:+ Str.newline +:+ "world")), w).
Proof.
  intros w.
  split; [evaluated|]. split; [evaluated|]. split; [evaluated|].
  split; [evaluated|]. split; [evaluated|].
  split; [vm_compute; repeat split; lia|].
  apply (cat_reads_file "f" ("hello" +:+ Str.newline +:+ "world") ["g"]
           ["d"; "u"; "home"] w); try evaluated.
  vm_compute; repeat split; lia.
Defined.

Lemma cat_first_argument_witness :
  (∀ k content,
     Fs.stat (fs mixed_world) (cwd mixed_world) (resolved "t" mixed_world)
     = inr (k, File content) →
     read_text content = Some mixed_text)
  ∧ _show_file_content ["t"; "d/f"] mixed_world
    = (inr (ok mixed_text), mixed_world).
Proof.
  assert (∀ k content,
            Fs.stat (fs mixed_world) (cwd mixed_world)
              (resolved "t" mixed_world) = inr (k, File content) →
            read_text content = Some mixed_text) as Htext.
  { intros k content Hstat. vm_compute in Hstat.
    injection Hstat as _ <-. vm_compute. reflexivity. }
  split; [exact Htext|].
  rewrite (cat_first_argument "t" ["d/f"] mixed_text mixed_world Htext).
  vm_compute. reflexivity.
Defined.

Lemma cp_copies_file_witness :
  let w := initial ["d"; "u"; "home"] sample_files tt in
  current_directory w = Fs.render ["d"; "u"; "home"]
  ∧ located (fs w) ["d"; "u"; "home"]
  ∧ fs w !! ["d"; "u"; "home"] = Some Dir
  ∧ entry_name "f" ∧ entry_name "g" ∧ "f" ≠ "g"
  ∧ fs w !! ["f"; "d"; "u"; "home"]
    = Some (File ("hello" +:+ Str.newline +:+ "world"))
  ∧ fs w !! ["g"; "d"; "u"; "home"] ≠ Some Dir
  ∧ _copy_file ["f"; "g"] w
    = (inr (ok ("Copied '" +:+ "f" +:+ "' to '" +:+ "g" +:+ "'")),
       World (current_directory w) (cwd w)
         (<[["g"; "d"; "u"; "home"]
            := File ("hello" +:+ Str.newline +:+ "world")]> (fs w)) (env w)).
Proof.
  intros w.
  split; [evaluated|]. split; [evaluated|]. split; [evaluated|].
  split; [evaluated|]. split; [evaluated|]. split; [evaluated|].
  split; [evaluated|]. split; [evaluated|].
  apply (cp_copies_file "f" "g" ("hello" +:+ Str.newline +:+ "world") []
           ["d"; "u"; "home"] w); evaluated.
Defined.

Lemma mv_renames_file_witness :
  let w := initial ["d"; "u"; "home"] sample_files tt in
  current_directory w = Fs.render ["d"; "u"; "home"]
  ∧ located (fs w) ["d"; "u"; "home"]
  ∧ fs w !! ["d"; "u"; "home"] = Some Dir
  ∧ entry_name "f" ∧ entry_name "g" ∧ "f" ≠ "g"
  ∧ fs w !! ["f"; "d"; "u"; "home"]
    = Some (File ("hello" +:+ Str.newline +:+ "world"))
  ∧ fs w !! ["g"; "d"; "u"; "home"] ≠ Some Dir
  ∧ _move_file ["f"; "g"] w
    = (inr (ok ("Moved '" +:+ "f" +:+ "' to '" +:+ "g" +:+ "'")),
       World (current_directory w) (cwd w)
         (<[["g"; "d"; "u"; "home"]
            := File ("hello" +:+ Str.newline +:+ "world")]>
            (delete ["f"; "d"; "u"; "home"] (fs w))) (env w)).
Proof.
  intros w.
  split; [evaluated|]. split; [evaluated|]. split; [evaluated|].
  split; [evaluated|]. split; [evaluated|]. split; [evaluated|].
  split; [evaluated|]. split; [evaluated|].
  apply (mv_renames_file "f" "g" ("hello" +:+ Str.newline +:+ "world") []
           ["d"; "u"; "home"] w); evaluated.
Defined.

Lemma find_outside_directory_witness :
  Fs.isdir (fs sample_world) (cwd sample_world)
    (resolved "d/f" sample_world) = false
  ∧ _find_files ["f"; "d/f"] sample_world
    = (inr (ok "No files found matching pattern"), sample_world).
Proof.
  split; [vm_compute; reflexivity|].
  apply (find_outside_directory "f" ["d/f"] sample_world).
  vm_compute; reflexivity.
Defined.

Lemma grep_skips_non_files_witness :
  ["nope"; "d"] ≠ []
  ∧ Forall (λ file, Str.contains file "*" = false
                    ∧ Fs.isfile (fs sample_world) (cwd sample_world)
                        (resolved file sample_world) = false) ["nope"; "d"]
  ∧ _grep_files ["hello"; "nope"; "d"] sample_world
    = (inr (ok "No matches found"), sample_world).
Proof.
  split; [discriminate|]. split; [evaluated|].
  apply (grep_skips_non_files "hello" ["nope"; "d"] sample_world);
    [discriminate|evaluated].
Defined.



Lemma completions_of_command_witness :
  (Str.split "C" = [] ∧ "C" = ""
   ∨ Str.split "C" = ["C"] ∧ Str.endswith "C" " " = false)
  ∧ (MkCompletion "cd" (-1) ∈ get_completions "C" sample_world
     ↔ is_Some (supported_commands !! "cd")
       ∧ Str.startswith "cd" (Str.lower "C") = true
       ∧ (-1 = - Z.of_nat (String.length "C"))%Z).
Proof.
  split; [right; split; vm_compute; reflexivity|].
  apply (completions_of_command "C" "C" sample_world (MkCompletion "cd" (-1))).
  right; split; vm_compute; reflexivity.
Defined.

Lemma no_completion_of_arguments_witness :
  Str.split "cat " = ["cat"]
  ∧ ((@nil string) ≠ [] ∨ Str.endswith "cat " " " = true)
  ∧ get_completions "cat " sample_world = [].
Proof.
  split; [vm_compute; reflexivity|]. split; [right; vm_compute; reflexivity|].
  apply (no_completion_of_arguments "cat " "cat" [] sample_world);
    [vm_compute; reflexivity|right; vm_compute; reflexivity].
Defined.

Lemma standalone_agrees_witness :
  _parse_command "TOP -n 1" = ["TOP"; "-n"; "1"]
  ∧ execute_command_standalone "TOP -n 1" sample_world
    = _execute_system_command "TOP -n 1" sample_world.
Proof.
  split; [vm_compute; reflexivity|].
  rewrite (standalone_agrees "TOP -n 1" "TOP" ["-n"; "1"] sample_world);
    vm_compute; reflexivity.
Defined.

Lemma fallback_follows_terminal_witness :
  Forall (λ input, ∀ command, input = Line command →
            command_word command ∉ ["ps"; "grep"; "top"])
    [Line "mkdir a"; KeyboardInterrupt; Line "help"; Line "cd a"; Line "quit"]
  ∧ (index_fallback
       [Line "mkdir a"; KeyboardInterrupt; Line "help"; Line "cd a";
        Line "quit"] sample_world).1.2
    = (index
         [Line "mkdir a"; KeyboardInterrupt; Line "help"; Line "cd a";
          Line "quit"] sample_world).1.2
  ∧ (index_fallback
       [Line "mkdir a"; KeyboardInterrupt; Line "help"; Line "cd a";
        Line "quit"] sample_world).2
    = (index
         [Line "mkdir a"; KeyboardInterrupt; Line "help"; Line "cd a";
          Line "quit"] sample_world).2.
Proof.
  assert (Forall (λ input, ∀ command, input = Line command →
                    command_word command ∉ ["ps"; "grep"; "top"])
            [Line "mkdir a"; KeyboardInterrupt; Line "help"; Line "cd a";
             Line "quit"]) as Hinputs.
  { repeat first [apply Forall_nil_2 | apply Forall_cons_2];
      intros command Heq; try discriminate Heq;
      injection Heq as <-; compute_done. }
  split; [exact Hinputs|].
  exact (fallback_follows_terminal _ sample_world Hinputs).
Defined.
